(** * getmyhousevalue-frontend: the valuation engine of [App.jsx]

    The index-adjusted valuation of [src/App.jsx]: the region classifier
    ([getPostcodeDetails], [getRegionForPostcode]), the house price index
    table [HPI_DATA] and [calculateValuation].

    JavaScript numbers are IEEE 754 binary64 values.  They are modelled with
    the executable specification of binary64 of the Standard Library
    ([SpecFloat], precision 53, [emax] 1024), so every arithmetic step below
    rounds exactly where the JavaScript engine rounds. *)

From Stdlib Require Import ZArith List String Ascii Bool Lia Sorted.
From Stdlib Require Import Floats.SpecFloat.
Import ListNotations.

Local Open Scope Z_scope.

(** ** The fragment of JavaScript the engine relies on *)

Module JS.

Definition prec : Z := 53.
Definition emax : Z := 1024.

(** A JavaScript number. *)
Definition number : Type := spec_float.

Definition NaN : number := S754_nan.

Definition mul (x y : number) : number := SFmul prec emax x y.
Definition div (x y : number) : number := SFdiv prec emax x y.
Definition sub (x y : number) : number := SFsub prec emax x y.

(** The number an integer literal (or an integer of a JSON document)
    denotes: the nearest binary64 value. *)
Definition of_Z (n : Z) : number := binary_normalize prec emax n 0 false.

(** The number a decimal literal [n / 10^k] denotes.  Numerator and
    denominator are exact for the literals of the source, and the division
    rounds to nearest, as the parser of the literal does. *)
Definition decimal (n : Z) (k : nat) : number :=
  div (of_Z n) (of_Z (10 ^ Z.of_nat k)).

(** [x > y] and [x >= y] on numbers (false when either is NaN). *)
Definition gt (x y : number) : bool := SFltb y x.
Definition ge (x y : number) : bool := SFleb y x.

Definition is_nan (x : number) : bool :=
  match x with S754_nan => true | _ => false end.

(** ToBoolean on a number: [0], [-0] and [NaN] are falsy. *)
Definition truthy (x : number) : bool :=
  match x with
  | S754_zero _ | S754_nan => false
  | _ => true
  end.

(** ToNumber on the result of a property read ([None] is [undefined]). *)
Definition to_number (v : option number) : number :=
  match v with
  | Some x => x
  | None => NaN
  end.

(** [v || d] where [v] is the result of a property read holding a number
    ([None] is [undefined]). *)
Definition or_default (v : option number) (d : number) : number :=
  match v with
  | Some x => if truthy x then x else d
  | None => d
  end.

(** [Math.round]: the integer [floor (x + 1/2)], computed exactly; NaN, the
    infinities and the zeros are returned unchanged, and a result of zero
    keeps the sign of the argument. *)
Definition Math_round (x : number) : number :=
  match x with
  | S754_finite s m e =>
      if 0 <=? e then x
      else
        let sm := if s then Zneg m else Zpos m in
        let n := (2 * sm + 2 ^ (- e)) / 2 ^ (1 - e) in
        if n =? 0 then S754_zero s else of_Z n
  | _ => x
  end.

(** [new Date(null).getFullYear()]: [null] converts to the time value 0,
    midnight of 1 January 1970 in UTC, and the year is read in local
    time: 1969 where local time was behind UTC at that moment, 1970
    everywhere else. *)
Definition epochYear (behindUTC : bool) : Z :=
  if behindUTC then 1969 else 1970.

(** ToBoolean on a string: only the empty string is falsy. *)
Definition truthy_string (s : string) : bool :=
  match s with EmptyString => false | _ => true end.

(** [String.prototype.includes]: [pat] occurs in [s] at some position. *)
Fixpoint includes (s pat : string) : bool :=
  prefix pat s ||
  match s with
  | EmptyString => false
  | String _ rest => includes rest pat
  end.

(** Completion of a function body: a returned value or a thrown
    [TypeError] (reading a property of [undefined]). *)
Inductive completion (A : Type) : Type :=
| Normal (a : A)
| TypeError.
Arguments Normal {A} a.
Arguments TypeError {A}.

End JS.

Arguments JS.of_Z : simpl never.
Arguments JS.decimal : simpl never.
Arguments JS.mul : simpl never.
Arguments JS.div : simpl never.
Arguments JS.sub : simpl never.

(** ** Values of binary64 numbers

    The vocabulary in which the rounding of the engine is stated. *)

Module Binary64.

(** The dyadic [m * 2^e] counted in units of [2^-3000]; exact for every
    exponent from [-3000] on, which covers the numbers and the exact
    products of two numbers. *)
Definition dyadic (m e : Z) : Z := m * 2 ^ (e + 3000).

(** Zero, a valid positive number or [Infinity]. *)
Definition nonneg (x : JS.number) : bool :=
  match x with
  | S754_zero false | S754_infinity false => true
  | S754_finite false m e => bounded JS.prec JS.emax m e
  | _ => false
  end.

(** A valid positive number. *)
Definition positive_finite (x : JS.number) : bool :=
  match x with
  | S754_finite false m e => bounded JS.prec JS.emax m e
  | _ => false
  end.

(** The value of a positive number, in units of [2^-3000]. *)
Definition value (x : JS.number) : Z :=
  match x with
  | S754_finite false m e => dyadic (Zpos m) e
  | _ => 0
  end.

(** The value is a whole number. *)
Definition integral (x : JS.number) : Prop :=
  exists k, value x = k * 2 ^ 3000.

(** State of the right shift of a mantissa [M] after [k] steps: the
    quotient, and no lost bit when the division is exact. *)
Definition shr_inv (M : Z) (k : Z) (mrs : shr_record) : Prop :=
  shr_m mrs = M / 2 ^ k /\
  (M mod 2 ^ k = 0 -> shr_r mrs = false /\ shr_s mrs = false).

End Binary64.

(** ** Property reads on the index objects

    [HPI_DATA] is an object literal whose members are object literals keyed
    by year.  A read [o[k]] finds an own member or, failing that, a member
    every object inherits from [Object.prototype]. *)

Module Obj.

(** An object literal [{ year: index, ... }], in source order. *)
Definition table : Type := list (Z * JS.number).

(** What a read of [HPI_DATA[regionKey]] can produce. *)
Inductive value : Type :=
| Table (t : table)
| Inherited.  (* a member of [Object.prototype]: it has no year keys *)

(** The property names every object inherits. *)
Definition Object_prototype : list string :=
  [ "constructor"; "hasOwnProperty"; "isPrototypeOf"; "propertyIsEnumerable";
    "toLocaleString"; "toString"; "valueOf"; "__proto__";
    "__defineGetter__"; "__defineSetter__"; "__lookupGetter__";
    "__lookupSetter__" ]%string.

Definition inherited (k : string) : bool :=
  existsb (String.eqb k) Object_prototype.

Fixpoint own {A} (members : list (string * A)) (k : string) : option A :=
  match members with
  | [] => None
  | (k', v) :: rest => if String.eqb k k' then Some v else own rest k
  end.

(** [data[k]] for an object literal [data] of tables; [None] is
    [undefined]. *)
Definition get (data : list (string * table)) (k : string) : option value :=
  match own data k with
  | Some t => Some (Table t)
  | None => if inherited k then Some Inherited else None
  end.

Fixpoint lookup (t : table) (y : Z) : option JS.number :=
  match t with
  | [] => None
  | (y', v) :: rest => if Z.eqb y y' then Some v else lookup rest y
  end.

(** [o[year]] where [year] is a number holding an integer or NaN ([None]):
    the key is the decimal string of the number, and "NaN" is no key of
    any object here. *)
Definition get_year (o : value) (year : option Z) : option JS.number :=
  match o, year with
  | Table t, Some y => lookup t y
  | _, _ => None
  end.

(** [Object.keys(o)]: integer keys come in ascending order, which is the
    order the tables are written in (see [keys_ascending]). *)
Definition keys (o : value) : list Z :=
  match o with
  | Table t => map fst t
  | Inherited => []
  end.

(** The numbers stored in [o]. *)
Definition values (o : value) : list JS.number :=
  match o with
  | Table t => map snd t
  | Inherited => []
  end.

(** Everything a read [data[k]] can produce when it is not [undefined]. *)
Definition objects (data : list (string * table)) : list value :=
  Inherited :: map Table (map snd data).

(** A list of years in strictly ascending order. *)
Fixpoint ascending (l : list Z) : bool :=
  match l with
  | [] => true
  | y :: rest =>
      match rest with
      | [] => true
      | y' :: _ => (y <? y') && ascending rest
      end
  end.

End Obj.

(** ** Records shared by both versions of [App.jsx] *)

(** What a read of [property.lastSoldDate] can produce for a record that
    arrived as JSON: [undefined] when the record has no such member,
    [null], or the string the member holds. *)
Inductive DateField : Type :=
| Missing
| Null
| DateString (d : string).

(** A property record as the backend (or [MOCK_PROPERTIES]) delivers it.
    A price of [0] is a record from the EPC register without a sale. *)
Record Property : Type := {
  id : string;
  address : string;
  postcode : string;
  type : string;
  sqMeters : N;
  epc : string;
  lastSoldDate : DateField;
  lastSoldPrice : N
}.

Definition price (p : Property) : JS.number := JS.of_Z (Z.of_N (lastSoldPrice p)).

(** The answer of api.postcodes.io as [getPostcodeDetails] sees it. *)
Inductive PostcodeResponse : Type :=
| Unreachable          (* fetch or json() threw, or status is not 200 *)
| Status200 (region admin_district : option string) (formatted : string).

(** [a || b] on two optional strings. *)
Definition or_string (a b : option string) : option string :=
  match a with
  | Some s => if JS.truthy_string s then a else b
  | None => b
  end.

(** [region && region.includes(pat)] as a condition. *)
Definition and_includes (region : option string) (pat : string) : bool :=
  match region with
  | Some s => JS.truthy_string s && JS.includes s pat
  | None => false
  end.

(** ** The current version: [src/App.jsx], lines 1-279 *)

Module App.

Definition HPI_DATA : list (string * Obj.table) :=
  [ ("London"%string,
      [ (2000, JS.decimal 382 1); (2010, JS.decimal 852 1); (2015, JS.decimal 1000 1);
        (2020, JS.decimal 1205 1); (2024, JS.decimal 1305 1) ]);
    ("South East"%string,
      [ (2000, JS.decimal 421 1); (2010, JS.decimal 841 1); (2015, JS.decimal 1000 1);
        (2020, JS.decimal 1215 1); (2024, JS.decimal 1382 1) ]);
    ("UK Average"%string,
      [ (2000, JS.decimal 435 1); (2010, JS.decimal 845 1); (2015, JS.decimal 1000 1);
        (2020, JS.decimal 1225 1); (2024, JS.decimal 1432 1) ]) ].

Definition MOCK_PROPERTIES : list Property :=
  [ {| id := "1"; address := "10 Downing Street"; postcode := "SW1A 1AA";
       type := "Terraced"; sqMeters := 240%N; epc := "C";
       lastSoldDate := DateString "2005-06-15"%string; lastSoldPrice := 4500000%N |} ].

(** Lines 26-28: the region key chosen for the label [region]. *)
Definition classify (region : option string) : string :=
  let regionKey := "UK Average"%string in
  let regionKey := if and_includes region "London" then "London"%string else regionKey in
  let regionKey := if and_includes region "South East" then "South East"%string else regionKey in
  regionKey.

Record PostcodeDetails : Type := {
  regionKey : string;
  formattedPostcode : string
}.

Definition getPostcodeDetails (inputPostcode : string) (res : PostcodeResponse)
  : PostcodeDetails :=
  match res with
  | Status200 region admin_district formatted =>
      let region := or_string region admin_district in
      {| regionKey := classify region; formattedPostcode := formatted |}
  | Unreachable =>
      {| regionKey := "UK Average"; formattedPostcode := inputPostcode |}
  end.

Record ValuationResult : Type := {
  estimatedValue : JS.number;
  lowerBound : JS.number;
  upperBound : JS.number;
  growthFactor : JS.number
}.

(** Line 252: the page shows "Valuation Unavailable" unless
    [estimatedValue > 0]. *)
Definition unavailable (r : ValuationResult) : bool :=
  negb (JS.gt (estimatedValue r) (JS.of_Z 0)).

Definition currentYear : Z := 2024.

(** [HPI_DATA[regionKey] || HPI_DATA["UK Average"]] *)
Definition indexData (regionKey : string) : option Obj.value :=
  match Obj.get HPI_DATA regionKey with
  | Some o => Some o
  | None => Obj.get HPI_DATA "UK Average"
  end.

(** [indexData[soldYear] || 100] *)
Definition indexOld (indexData : Obj.value) (soldYear : option Z) : JS.number :=
  JS.or_default (Obj.get_year indexData soldYear) (JS.of_Z 100).

(** [indexData[currentYear] || 143.2] *)
Definition indexNew (indexData : Obj.value) : JS.number :=
  JS.or_default (Obj.get_year indexData (Some currentYear)) (JS.decimal 1432 1).

Section Valuation.

(** [new Date(s).getFullYear()] for a string [s]: the year in local time,
    or NaN ([None]) for a string that is no date.  Parsing is the runtime's
    business; the engine only uses the year. *)
Variable Date_getFullYear : string -> option Z.

(** Line 44: [property.lastSoldDate ? new Date(...).getFullYear() : 2015] *)
Definition soldYear (property : Property) : option Z :=
  match lastSoldDate property with
  | DateString d => if JS.truthy_string d then Date_getFullYear d else Some 2015
  | Null | Missing => Some 2015
  end.

Definition calculateValuation (property : Property) (regionKey : string)
  : JS.completion ValuationResult :=
  match indexData regionKey with
  | None => JS.TypeError
  | Some indexData =>
      let indexOld := indexOld indexData (soldYear property) in
      let indexNew := indexNew indexData in
      let growthFactor := JS.div indexNew indexOld in
      let estimatedValue :=
        if JS.gt (price property) (JS.of_Z 0)
        then JS.Math_round (JS.mul (price property) growthFactor)
        else JS.of_Z 0 in
      JS.Normal
        {| estimatedValue := estimatedValue;
           lowerBound := JS.Math_round (JS.mul estimatedValue (JS.decimal 95 2));
           upperBound := JS.Math_round (JS.mul estimatedValue (JS.decimal 105 2));
           growthFactor := growthFactor |}
  end.

End Valuation.

End App.

(** ** The version with the price trend chart: [src/App.jsx], lines 280-599 *)

Module AppChart.

Definition HPI_DATA : list (string * Obj.table) :=
  [ ("London"%string,
      [ (2000, JS.decimal 382 1); (2001, JS.decimal 425 1); (2002, JS.decimal 498 1);
        (2003, JS.decimal 541 1); (2004, JS.decimal 602 1); (2005, JS.decimal 635 1);
        (2006, JS.decimal 698 1); (2007, JS.decimal 842 1); (2008, JS.decimal 821 1);
        (2009, JS.decimal 765 1); (2010, JS.decimal 852 1); (2011, JS.decimal 861 1);
        (2012, JS.decimal 903 1); (2013, JS.decimal 985 1); (2014, JS.decimal 1152 1);
        (2015, JS.decimal 1000 1); (2016, JS.decimal 1125 1); (2017, JS.decimal 1168 1);
        (2018, JS.decimal 1159 1); (2019, JS.decimal 1148 1); (2020, JS.decimal 1205 1);
        (2021, JS.decimal 1262 1); (2022, JS.decimal 1345 1); (2023, JS.decimal 1312 1);
        (2024, JS.decimal 1305 1) ]);
    ("South East"%string,
      [ (2000, JS.decimal 421 1); (2001, JS.decimal 475 1); (2002, JS.decimal 568 1);
        (2003, JS.decimal 642 1); (2004, JS.decimal 701 1); (2005, JS.decimal 725 1);
        (2006, JS.decimal 768 1); (2007, JS.decimal 852 1); (2008, JS.decimal 835 1);
        (2009, JS.decimal 752 1); (2010, JS.decimal 841 1); (2011, JS.decimal 835 1);
        (2012, JS.decimal 852 1); (2013, JS.decimal 885 1); (2014, JS.decimal 962 1);
        (2015, JS.decimal 1000 1); (2016, JS.decimal 1105 1); (2017, JS.decimal 1152 1);
        (2018, JS.decimal 1165 1); (2019, JS.decimal 1158 1); (2020, JS.decimal 1215 1);
        (2021, JS.decimal 1322 1); (2022, JS.decimal 1425 1); (2023, JS.decimal 1395 1);
        (2024, JS.decimal 1382 1) ]);
    ("UK Average"%string,
      [ (2000, JS.decimal 435 1); (2001, JS.decimal 478 1); (2002, JS.decimal 562 1);
        (2003, JS.decimal 668 1); (2004, JS.decimal 752 1); (2005, JS.decimal 785 1);
        (2006, JS.decimal 828 1); (2007, JS.decimal 902 1); (2008, JS.decimal 885 1);
        (2009, JS.decimal 782 1); (2010, JS.decimal 845 1); (2011, JS.decimal 832 1);
        (2012, JS.decimal 845 1); (2013, JS.decimal 878 1); (2014, JS.decimal 945 1);
        (2015, JS.decimal 1000 1); (2016, JS.decimal 1075 1); (2017, JS.decimal 1122 1);
        (2018, JS.decimal 1155 1); (2019, JS.decimal 1168 1); (2020, JS.decimal 1225 1);
        (2021, JS.decimal 1342 1); (2022, JS.decimal 1455 1); (2023, JS.decimal 1425 1);
        (2024, JS.decimal 1432 1) ]) ].

Definition MOCK_PROPERTIES : list Property :=
  [ {| id := "1"; address := "10 Downing Street"; postcode := "SW1A 1AA";
       type := "Terraced"; sqMeters := 240%N; epc := "C";
       lastSoldDate := DateString "2005-06-15"%string; lastSoldPrice := 4500000%N |};
    {| id := "2"; address := "11 Downing Street"; postcode := "SW1A 1AA";
       type := "Terraced"; sqMeters := 210%N; epc := "D";
       lastSoldDate := DateString "2012-08-20"%string; lastSoldPrice := 5200000%N |} ].

(** Lines 321-323: the region key returned for the label [region]. *)
Definition classify (region : option string) : string :=
  if and_includes region "London" then "London"%string
  else if and_includes region "South East" then "South East"%string
  else "UK Average"%string.

Definition getRegionForPostcode (res : PostcodeResponse) : string :=
  match res with
  | Status200 region admin_district _ => classify (or_string region admin_district)
  | Unreachable => "UK Average"%string
  end.

(** One point of the price trend.  [year] is the key of the table (a
    decimal string in the source), [index] the raw read [indexData[year]]. *)
Record ChartPoint : Type := {
  year : Z;
  index : option JS.number;
  value : JS.number
}.

Record ValuationResult : Type := {
  estimatedValue : JS.number;
  lowerBound : JS.number;
  upperBound : JS.number;
  growthFactor : JS.number;
  chartData : list ChartPoint;
  regionKey : string
}.

Definition currentYear : Z := 2024.

(** [HPI_DATA[regionKey] || HPI_DATA["UK Average"]] *)
Definition indexData (regionKey : string) : option Obj.value :=
  match Obj.get HPI_DATA regionKey with
  | Some o => Some o
  | None => Obj.get HPI_DATA "UK Average"
  end.

(** [indexData[soldYear] || 100] *)
Definition indexOld (indexData : Obj.value) (soldYear : option Z) : JS.number :=
  JS.or_default (Obj.get_year indexData soldYear) (JS.of_Z 100).

(** [indexData[currentYear] || 143.2] *)
Definition indexNew (indexData : Obj.value) : JS.number :=
  JS.or_default (Obj.get_year indexData (Some currentYear)) (JS.decimal 1432 1).

(** [year >= soldYear] for a key [year] and a number [soldYear]: false
    when [soldYear] is NaN. *)
Definition year_ge (year : Z) (soldYear : option Z) : bool :=
  match soldYear with
  | Some s => s <=? year
  | None => false
  end.

Section Valuation.

Variable Date_getFullYear : string -> option Z.

(** Whether local time was behind UTC on 1 January 1970. *)
Variable Date_behindUTC : bool.

(** Line 343: [new Date(property.lastSoldDate).getFullYear()].  The date
    of [undefined] is invalid and its year NaN; the date of [null] is
    the epoch. *)
Definition soldYear (property : Property) : option Z :=
  match lastSoldDate property with
  | DateString d => Date_getFullYear d
  | Null => Some (JS.epochYear Date_behindUTC)
  | Missing => None
  end.

Definition chartPoint (property : Property) (indexData : Obj.value)
    (indexOld : JS.number) (year : Z) : ChartPoint :=
  {| year := year;
     index := Obj.get_year indexData (Some year);
     value := JS.Math_round
                (JS.mul (price property)
                   (JS.div (JS.to_number (Obj.get_year indexData (Some year))) indexOld)) |}.

Definition calculateValuation (property : Property) (regionKey : string)
  : JS.completion ValuationResult :=
  let soldYear := soldYear property in
  match indexData regionKey with
  | None => JS.TypeError
  | Some indexData =>
      let indexOld := indexOld indexData soldYear in
      let indexNew := indexNew indexData in
      let growthFactor := JS.div indexNew indexOld in
      let estimatedValue := JS.Math_round (JS.mul (price property) growthFactor) in
      let lowerBound := JS.Math_round (JS.mul estimatedValue (JS.decimal 95 2)) in
      let upperBound := JS.Math_round (JS.mul estimatedValue (JS.decimal 105 2)) in
      let chartData :=
        map (chartPoint property indexData indexOld)
            (filter (fun year => year_ge year soldYear) (Obj.keys indexData)) in
      JS.Normal
        {| estimatedValue := estimatedValue;
           lowerBound := lowerBound;
           upperBound := upperBound;
           growthFactor := growthFactor;
           chartData := chartData;
           regionKey := regionKey |}
  end.

End Valuation.

End AppChart.

(** ** The index lookup of the specification

    [indexFor] as section 4.2 of the specification words it, to compare
    the reads of [calculateValuation] with: the lookup is direct table
    access; a year the table of the region does not hold gives the fixed
    constant 100.0; a region the table does not hold at all is read in
    the table of UK_AVERAGE. *)

Module Spec.

Definition regionTable (data : list (string * Obj.table)) (region : string) : Obj.table :=
  match Obj.own data region with
  | Some t => t
  | None =>
      match Obj.own data "UK Average" with
      | Some t => t
      | None => []
      end
  end.

Definition indexFor (data : list (string * Obj.table)) (region : string) (year : Z)
  : JS.number :=
  match Obj.lookup (regionTable data region) year with
  | Some v => v
  | None => JS.of_Z 100
  end.

End Spec.

(** ** The page of the current version: [App], [handleSearch] and
    [renderContent]

    The component keeps seven state variables.  An event is possible when
    the control that raises it is rendered and enabled; [handleSearch]
    runs in three parts, split at its two [await]s, and the two answers
    arrive as events of their own. *)

Module Page.

(** The answer of the backend as [fetchProperties] sees it. *)
Inductive BackendResponse : Type :=
| BackendFailed                (* fetch or json() threw, or response.ok is false *)
| BackendOk (l : list Property).

(** Lines 35-41: the list of the backend, or the mock list on any failure. *)
Definition fetchProperties (res : BackendResponse) : list Property :=
  match res with
  | BackendOk l => l
  | BackendFailed => App.MOCK_PROPERTIES
  end.

Inductive PageName : Type := Home | HowItWorks | Data | Privacy.

(** Where [handleSearch] is suspended; it keeps the postcode it was
    started with. *)
Inductive Pending : Type :=
| Idle
| AwaitingPostcode (input : string)
| AwaitingProperties (formatted : string).

Record State : Type := {
  page : PageName;
  step : Z;
  postcode : string;
  loading : bool;
  properties : list Property;
  selectedProp : option Property;
  region : string;
  pending : Pending
}.

(** The initial values of the [useState] calls. *)
Definition initial : State :=
  {| page := Home; step := 1; postcode := EmptyString; loading := false;
     properties := []; selectedProp := None; region := "UK Average";
     pending := Idle |}.

(** What [renderContent] returns. *)
Inductive View : Type :=
| InfoView (p : PageName)
| SearchView
| ListView
| ResultView (selected : Property)
| Blank.  (* no branch returns: nothing is rendered *)

Definition renderContent (st : State) : View :=
  match page st with
  | HowItWorks => InfoView HowItWorks
  | Data => InfoView Data
  | Privacy => InfoView Privacy
  | Home =>
      if step st =? 1 then SearchView
      else if step st =? 2 then ListView
      else if step st =? 3 then
        match selectedProp st with
        | Some selected => ResultView selected
        | None => Blank
        end
      else Blank
  end.

Inductive Event : Type :=
| SetPage (p : PageName)                      (* header, footer, back of an info page *)
| ChangePostcode (s : string)                 (* the input of the search form *)
| Submit                                      (* the search form *)
| PostcodeAnswered (res : PostcodeResponse)   (* after await getPostcodeDetails *)
| PropertiesAnswered (res : BackendResponse)  (* after await fetchProperties *)
| SetStep1                                    (* Back, Try another postcode, Value Another Property *)
| SelectAddress (row : nat)                   (* a row of the list *)
| BackToList.

Definition is_search (v : View) : bool :=
  match v with SearchView => true | _ => false end.
Definition is_list (v : View) : bool :=
  match v with ListView => true | _ => false end.
Definition is_result (v : View) : bool :=
  match v with ResultView _ => true | _ => false end.

(** The state after an event, or [None] when the event cannot happen:
    its control is not rendered, the submit button is disabled, or no
    answer is awaited. *)
Definition handle (st : State) (ev : Event) : option State :=
  match ev with
  | SetPage p =>
      Some {| page := p; step := step st; postcode := postcode st; loading := loading st;
              properties := properties st; selectedProp := selectedProp st;
              region := region st; pending := pending st |}
  | ChangePostcode s =>
      if is_search (renderContent st) then
        Some {| page := page st; step := step st; postcode := s; loading := loading st;
                properties := properties st; selectedProp := selectedProp st;
                region := region st; pending := pending st |}
      else None
  | Submit =>
      if is_search (renderContent st) && negb (loading st) then
        Some {| page := page st; step := step st; postcode := postcode st; loading := true;
                properties := properties st; selectedProp := selectedProp st;
                region := region st; pending := AwaitingPostcode (postcode st) |}
      else None
  | PostcodeAnswered res =>
      match pending st with
      | AwaitingPostcode input =>
          let details := App.getPostcodeDetails input res in
          Some {| page := page st; step := step st; postcode := postcode st;
                  loading := loading st; properties := properties st;
                  selectedProp := selectedProp st;
                  region := App.regionKey details;
                  pending := AwaitingProperties (App.formattedPostcode details) |}
      | _ => None
      end
  | PropertiesAnswered res =>
      match pending st with
      | AwaitingProperties _ =>
          Some {| page := Home; step := 2; postcode := postcode st; loading := false;
                  properties := fetchProperties res; selectedProp := selectedProp st;
                  region := region st; pending := Idle |}
      | _ => None
      end
  | SetStep1 =>
      if is_list (renderContent st) || is_result (renderContent st) then
        Some {| page := page st; step := 1; postcode := postcode st; loading := loading st;
                properties := properties st; selectedProp := selectedProp st;
                region := region st; pending := pending st |}
      else None
  | SelectAddress row =>
      match nth_error (properties st) row with
      | Some addr =>
          if is_list (renderContent st) then
            Some {| page := page st; step := 3; postcode := postcode st;
                    loading := loading st; properties := properties st;
                    selectedProp := Some addr;
                    region := region st; pending := pending st |}
          else None
      | None => None
      end
  | BackToList =>
      if is_result (renderContent st) then
        Some {| page := page st; step := 2; postcode := postcode st; loading := loading st;
                properties := properties st; selectedProp := selectedProp st;
                region := region st; pending := pending st |}
      else None
  end.

(** The states the page can be in. *)
Inductive reachable : State -> Prop :=
| reachable_initial : reachable initial
| reachable_handle st ev st' :
    reachable st -> handle st ev = Some st' -> reachable st'.

(** Runs a list of events; [None] when one of them cannot happen. *)
Fixpoint run (st : State) (evs : list Event) : option State :=
  match evs with
  | [] => Some st
  | ev :: rest =>
      match handle st ev with
      | Some st' => run st' rest
      | None => None
      end
  end.

(** Lines 270 and 362: the number shown after "+" as market growth,
    [Math.round((growthFactor - 1) * 100)]. *)
Definition marketGrowth (growthFactor : JS.number) : JS.number :=
  JS.Math_round (JS.mul (JS.sub growthFactor (JS.of_Z 1)) (JS.of_Z 100)).

(** What the invariant of the page says of a state. *)
Definition invariant (st : State) : Prop :=
  In (region st) (map fst App.HPI_DATA) /\
  (step st = 1 \/ step st = 2 \/ step st = 3) /\
  (step st = 3 -> exists a, selectedProp st = Some a /\ In a (properties st)) /\
  (loading st = true <-> pending st <> Idle) /\
  (pending st <> Idle -> step st = 1).

End Page.

Definition sold2024 : Property :=
  {| id := "12"; address := "12 Mill Lane"; postcode := "RG1 2AB";
     type := "Detached"; sqMeters := 130%N; epc := "B";
     lastSoldDate := DateString "2024-02-29"%string; lastSoldPrice := 610000%N |}.

(** A record with its date removed. *)
Definition withoutDate (p : Property) : Property :=
  {| id := id p; address := address p; postcode := postcode p; type := type p;
     sqMeters := sqMeters p; epc := epc p; lastSoldDate := Missing;
     lastSoldPrice := lastSoldPrice p |}.

(** ** A year reader for ISO dates

    The year of a date string [YYYY-MM-DD], the format of the records in
    [MOCK_PROPERTIES]; an instance of the parameter [Date_getFullYear] for
    the examples. *)

Definition digit (c : ascii) : option Z :=
  let n := Z.of_nat (nat_of_ascii c) in
  if (48 <=? n) && (n <=? 57) then Some (n - 48) else None.

Definition isoYear (s : string) : option Z :=
  match s with
  | String a (String b (String c (String d _))) =>
      match digit a, digit b, digit c, digit d with
      | Some a, Some b, Some c, Some d => Some (1000 * a + 100 * b + 10 * c + d)
      | _, _, _, _ => None
      end
  | _ => None
  end.

(** Sample records. *)
Definition downing10 : Property :=
  {| id := "1"; address := "10 Downing Street"; postcode := "SW1A 1AA";
     type := "Terraced"; sqMeters := 240%N; epc := "C";
     lastSoldDate := DateString "2005-06-15"%string; lastSoldPrice := 4500000%N |}.

Definition sold2010 : Property :=
  {| id := "7"; address := "4 Mill Lane"; postcode := "RG1 2AB";
     type := "Semi-Detached"; sqMeters := 95%N; epc := "D";
     lastSoldDate := DateString "2010-03-01"%string; lastSoldPrice := 250000%N |}.

Definition undated : Property :=
  {| id := "8"; address := "6 Mill Lane"; postcode := "RG1 2AB";
     type := "Flat"; sqMeters := 60%N; epc := "C";
     lastSoldDate := Missing; lastSoldPrice := 300000%N |}.

(** A record whose date the backend delivers as [null]. *)
Definition nullDate : Property :=
  {| id := "13"; address := "14 Mill Lane"; postcode := "RG1 2AB";
     type := "Flat"; sqMeters := 60%N; epc := "C";
     lastSoldDate := Null; lastSoldPrice := 300000%N |}.

(** A record of the EPC register: no sale is known. *)
Definition epcOnly : Property :=
  {| id := "9"; address := "8 Mill Lane"; postcode := "RG1 2AB";
     type := "Flat"; sqMeters := 55%N; epc := "B";
     lastSoldDate := Missing; lastSoldPrice := 0%N |}.

Definition unpriced2020 : Property :=
  {| id := "10"; address := "10 Mill Lane"; postcode := "RG1 2AB";
     type := "Flat"; sqMeters := 55%N; epc := "B";
     lastSoldDate := DateString "2020-01-10"%string; lastSoldPrice := 0%N |}.

Definition garage2015 : Property :=
  {| id := "11"; address := "Garage 3, Mill Lane"; postcode := "RG1 2AB";
     type := "Other"; sqMeters := 12%N; epc := "G";
     lastSoldDate := DateString "2015-05-05"%string; lastSoldPrice := 375%N |}.

(** A search answered with two records, the second selected. *)
Definition afterSelection : Page.State :=
  {| Page.page := Page.Home; Page.step := 3; Page.postcode := "RG1 2AB";
     Page.loading := false; Page.properties := [sold2010; undated];
     Page.selectedProp := Some undated; Page.region := "South East";
     Page.pending := Page.Idle |}.

(** * Properties *)

Import Binary64.

(** ** Rounding to binary64 *)


Lemma pow2_pos (a : Z) : 0 <= a -> 0 < 2 ^ a.
Proof. intros. apply Z.pow_pos_nonneg; lia. Qed.

Lemma pow2_add (a b : Z) : 0 <= a -> 0 <= b -> 2 ^ (a + b) = 2 ^ a * 2 ^ b.
Proof. intros. apply Z.pow_add_r; assumption. Qed.

Lemma pow2_le (a b : Z) : 0 <= a <= b -> 2 ^ a <= 2 ^ b.
Proof. intros. apply Z.pow_le_mono_r; lia. Qed.

Lemma pow2_lt (a b : Z) : 0 <= a < b -> 2 ^ a < 2 ^ b.
Proof. intros. apply Z.pow_lt_mono_r; lia. Qed.

(** Number of binary digits of a mantissa. *)
Lemma digits2_bounds (m : positive) :
  2 ^ (Zpos (digits2_pos m) - 1) <= Zpos m < 2 ^ Zpos (digits2_pos m).
Proof.
  induction m as [m IH | m IH |]; cbn [digits2_pos].
  - rewrite Pos2Z.inj_succ.
    replace (Z.succ (Zpos (digits2_pos m)) - 1) with (Z.succ (Zpos (digits2_pos m) - 1)) by lia.
    rewrite !Z.pow_succ_r by lia. lia.
  - rewrite Pos2Z.inj_succ.
    replace (Z.succ (Zpos (digits2_pos m)) - 1) with (Z.succ (Zpos (digits2_pos m) - 1)) by lia.
    rewrite !Z.pow_succ_r by lia. lia.
  - cbn. lia.
Qed.

Lemma digits2_unique (m : positive) (d : Z) :
  2 ^ (d - 1) <= Zpos m < 2 ^ d -> Zpos (digits2_pos m) = d.
Proof.
  intros [Hlo Hhi]. pose proof (digits2_bounds m) as [Blo Bhi].
  assert (0 < d). { destruct (Z.ltb_spec 0 d); [assumption|]. rewrite (Z.pow_neg_r 2 (d-1)) in Hlo by lia.
    destruct (Z.eqb_spec d 0). subst. cbn in Hhi. lia. rewrite Z.pow_neg_r in Hhi by lia. lia. }
  destruct (Z.lt_trichotomy (Zpos (digits2_pos m)) d) as [Hc | [Hc | Hc]]; [ | assumption | ].
  - assert (2 ^ Zpos (digits2_pos m) <= 2 ^ (d - 1)) by (apply pow2_le; lia). lia.
  - assert (2 ^ d <= 2 ^ (Zpos (digits2_pos m) - 1)) by (apply pow2_le; lia). lia.
Qed.

(** Iterating a step [p] times moves an indexed invariant [p] steps on. *)
Lemma iter_pos_invariant {A} (f : A -> A) (P : Z -> A -> Prop) :
  (forall j x, 0 <= j -> P j x -> P (j + 1) (f x)) ->
  forall p j x, 0 <= j -> P j x -> P (j + Zpos p) (iter_pos f p x).
Proof.
  intros Hstep. induction p as [p IH | p IH |]; intros j x Hj Hx; cbn [iter_pos].
  - replace (j + Zpos p~1) with (((j + 1) + Zpos p) + Zpos p) by lia.
    apply IH; [lia|]. apply IH; [lia|]. apply Hstep; assumption.
  - replace (j + Zpos p~0) with ((j + Zpos p) + Zpos p) by lia.
    apply IH; [lia|]. apply IH; assumption.
  - apply Hstep; assumption.
Qed.

(** One right shift on a non-negative mantissa. *)
Lemma shr_1_spec (m : Z) (r s : bool) :
  0 <= m ->
  shr_1 (Build_shr_record m r s) = Build_shr_record (m / 2) (Z.odd m) (r || s).
Proof.
  intros Hm. destruct m as [| [p | p |] | p]; try lia; cbn [shr_1].
  - reflexivity.
  - f_equal. change (Zpos p~1) with (2 * Zpos p + 1). 
    apply Z.div_unique with (r := 1); lia.
  - f_equal. change (Zpos p~0) with (2 * Zpos p).
    apply Z.div_unique with (r := 0); lia.
  - reflexivity.
Qed.

Lemma shr_inv_step (M : Z) : 0 <= M ->
  forall j x, 0 <= j -> shr_inv M j x -> shr_inv M (j + 1) (shr_1 x).
Proof.
  intros HM j [m r s] Hj [Hm Hex]. cbn [shr_m shr_r shr_s] in *.
  assert (Hp : 0 < 2 ^ j) by (apply pow2_pos; lia).
  assert (0 <= m) by (subst m; apply Z.div_pos; lia).
  rewrite shr_1_spec by assumption. unfold shr_inv; cbn [shr_m shr_r shr_s].
  rewrite pow2_add by lia. change (2 ^ 1) with 2.
  split.
  - subst m. rewrite Z.div_div by lia. reflexivity.
  - intros Hmod.
    assert (Hdiv : M = 2 ^ j * 2 * (M / (2 ^ j * 2))).
    { pose proof (Z.div_mod M (2 ^ j * 2)). lia. }
    assert (Hmj : M mod 2 ^ j = 0).
    { apply Z.mod_divide; [lia|]. exists (2 * (M / (2 ^ j * 2))). lia. }
    destruct (Hex Hmj) as [-> ->]. split; [|reflexivity].
    assert (Hm2 : m = 2 * (M / (2 ^ j * 2))).
    { subst m. rewrite Hdiv at 1. 
      replace (2 ^ j * 2 * (M / (2 ^ j * 2))) with ((2 * (M / (2 ^ j * 2))) * 2 ^ j) by lia.
      apply Z.div_mul. lia. }
    rewrite Hm2. rewrite Z.odd_mul. reflexivity.
Qed.

Lemma shr_exact_spec (M : Z) (p : positive) : 0 <= M ->
  shr_inv M (Zpos p) (iter_pos shr_1 p (Build_shr_record M false false)).
Proof.
  intros HM. change (Zpos p) with (0 + Zpos p).
  apply (iter_pos_invariant shr_1 (shr_inv M) (shr_inv_step M HM)); [lia|].
  unfold shr_inv; cbn. rewrite Z.div_1_r. auto.
Qed.

Lemma fexp_eq (e : Z) : fexp JS.prec JS.emax e = Z.max (e - 53) (-1074).
Proof. reflexivity. Qed.

Lemma div_pow2_bounds (M n : Z) : 0 <= n ->
  (M / 2 ^ n) * 2 ^ n <= M < (M / 2 ^ n + 1) * 2 ^ n.
Proof.
  intros Hn. pose proof (pow2_pos n Hn) as Hp.
  pose proof (Z.div_mod M (2 ^ n)) as Hdm.
  pose proof (Z.mod_pos_bound M (2 ^ n) Hp). lia.
Qed.

(** The first alignment of [binary_round_aux] on an exact mantissa. *)
Lemma shr_fexp_exact (M E : Z) :
  0 <= M ->
  E <= fexp JS.prec JS.emax (Zdigits2 M + E) ->
  exists mrs,
    shr_fexp JS.prec JS.emax M E loc_Exact = (mrs, fexp JS.prec JS.emax (Zdigits2 M + E)) /\
    shr_inv M (fexp JS.prec JS.emax (Zdigits2 M + E) - E) mrs.
Proof.
  intros HM HE. unfold shr_fexp. cbn [shr_record_of_loc].
  remember (fexp JS.prec JS.emax (Zdigits2 M + E)) as e1 eqn:He1.
  destruct (e1 - E) as [| p | p] eqn:Hn; try lia.
  - exists (Build_shr_record M false false). cbn [shr]. split.
    + f_equal. lia.
    + unfold shr_inv; cbn. rewrite Z.div_1_r. auto.
  - exists (iter_pos shr_1 p (Build_shr_record M false false)). cbn [shr]. split.
    + f_equal. lia.
    + apply shr_exact_spec. assumption.
Qed.

Lemma round_nearest_even_bounds (mrs : shr_record) :
  let M1 := round_nearest_even (shr_m mrs) (loc_of_shr_record mrs) in
  shr_m mrs <= M1 <= shr_m mrs + 1 /\
  (shr_r mrs = false /\ shr_s mrs = false -> M1 = shr_m mrs).
Proof.
  destruct mrs as [m [|] [|]]; cbn; try destruct (Z.even m); split; try lia; intros [? ?]; try discriminate; reflexivity.
Qed.

(** What [binary_round_aux] returns on an exact positive mantissa that
    needs no shift to the left: the quotient by the grid step, rounded to
    one of its two neighbours, renormalised. *)
Lemma binary_round_aux_spec (s : bool) (mm : positive) (E : Z) :
  let d := Zpos (digits2_pos mm) in
  let e1 := fexp JS.prec JS.emax (d + E) in
  let q := Zpos mm / 2 ^ (e1 - E) in
  E <= e1 ->
  exists M1,
    q <= M1 <= q + 1 /\
    (Zpos mm mod 2 ^ (e1 - E) = 0 -> M1 = q) /\
    ((M1 = 0 /\ binary_round_aux JS.prec JS.emax s (Zpos mm) E loc_Exact = S754_zero s) \/
     exists m e,
       canonical_mantissa JS.prec JS.emax m e = true /\
       e1 <= e /\ M1 = Zpos m * 2 ^ (e - e1) /\
       binary_round_aux JS.prec JS.emax s (Zpos mm) E loc_Exact =
         if e <=? JS.emax - JS.prec then S754_finite s m e else S754_infinity s).
Proof.
  intros d e1 q HE.
  destruct (shr_fexp_exact (Zpos mm) E) as (mrs & Hshr & Hm & Hex); [lia | exact HE |].
  cbn [Zdigits2] in Hshr, Hm, Hex.
  change (Z.pos (digits2_pos mm)) with d in Hshr, Hm, Hex.
  change (fexp JS.prec JS.emax (d + E)) with e1 in Hshr, Hm, Hex.
  change (Z.pos mm / 2 ^ (e1 - E)) with q in Hm.
  pose proof (round_nearest_even_bounds mrs) as [Hb Hrne]. cbv zeta in Hb, Hrne.
  remember (round_nearest_even (shr_m mrs) (loc_of_shr_record mrs)) as M1 eqn:HeqM1 in *.
  exists M1. rewrite Hm in Hb, Hrne.
  split; [exact Hb|]. split; [intros H0; apply Hrne, Hex, H0|].
  unfold binary_round_aux. rewrite Hshr. rewrite <- HeqM1. clear HeqM1.
  pose proof (digits2_bounds mm) as Hd. fold d in Hd.
  assert (Hn : 0 <= e1 - E) by lia.
  pose proof (div_pow2_bounds (Zpos mm) (e1 - E) Hn) as Hq. fold q in Hq.
  pose proof (pow2_pos (e1 - E) Hn) as Hpn.
  assert (Hq0 : 0 <= q) by (apply Z.div_pos; lia).
  assert (He1 : e1 = Z.max (d + E - 53) (-1074)) by reflexivity.
  destruct M1 as [| m1 | m1]; [ | | lia].
  - (* the rounded mantissa is zero *)
    left. split; [reflexivity|].
    unfold shr_fexp. cbn [Zdigits2 shr_record_of_loc]. rewrite fexp_eq.
    destruct (Z.max (0 + e1 - 53) (-1074) - e1) as [| p | p] eqn:Hs; try lia; reflexivity.
  - right.
    pose proof (digits2_bounds m1) as Hd1.
    destruct (Z.leb_spec (-1074) (d + E - 53)) as [Hnorm | Hsub].
    + (* normal range: the quotient has 53 digits *)
      assert (He1' : e1 = d + E - 53) by lia.
      assert (Hsplit1 : 2 ^ (d - 1) = 2 ^ 52 * 2 ^ (e1 - E)).
      { rewrite <- pow2_add by lia. f_equal. lia. }
      assert (Hsplit2 : 2 ^ d = 2 ^ 53 * 2 ^ (e1 - E)).
      { rewrite <- pow2_add by lia. f_equal. lia. }
      assert (Hq52 : 2 ^ 52 <= q < 2 ^ 53) by nia.
      destruct (Z.ltb_spec (Zpos m1) (2 ^ 53)) as [Hlt | Hge].
      * assert (Hdig : Zpos (digits2_pos m1) = 53) by (apply digits2_unique; change (53 - 1) with 52; lia).
        exists m1, e1. unfold shr_fexp. cbn [Zdigits2 shr_record_of_loc].
        rewrite Hdig, fexp_eq.
        replace (Z.max (53 + e1 - 53) (-1074) - e1) with 0 by lia. cbn [shr shr_m].
        repeat split.
        -- unfold canonical_mantissa. rewrite Hdig, fexp_eq. apply Z.eqb_eq. lia.
        -- lia.
        -- rewrite Z.sub_diag. cbn. lia.
      * assert (Hm1 : Zpos m1 = 2 ^ 53) by lia.
        assert (Hdig : Zpos (digits2_pos m1) = 54) by (apply digits2_unique; rewrite Hm1; cbn; lia).
        exists (Z.to_pos (2 ^ 52)), (e1 + 1). unfold shr_fexp. cbn [Zdigits2 shr_record_of_loc].
        rewrite Hdig, fexp_eq.
        replace (Z.max (54 + e1 - 53) (-1074) - e1) with 1 by lia. cbn [shr iter_pos].
        rewrite Hm1. cbn -[Z.leb JS.emax JS.prec].
        repeat split.
        -- unfold canonical_mantissa. cbn [digits2_pos Pos.succ]. rewrite fexp_eq. apply Z.eqb_eq. lia.
        -- lia.
        -- replace (e1 + 1 - e1) with 1 by lia. reflexivity.
    + (* subnormal range: no carry can leave the format *)
      assert (He1' : e1 = -1074) by lia.
      assert (Hle : 2 ^ d <= 2 ^ 52 * 2 ^ (e1 - E)).
      { rewrite <- pow2_add by lia. apply pow2_le. lia. }
      assert (Hq52 : q < 2 ^ 52) by nia.
      assert (Hdig : Zpos (digits2_pos m1) <= 53).
      { destruct (Z.leb_spec (Zpos (digits2_pos m1)) 53); [assumption|].
        assert (2 ^ 53 <= 2 ^ (Zpos (digits2_pos m1) - 1)) by (apply pow2_le; lia).
        assert (2 ^ 52 < 2 ^ 53) by (apply pow2_lt; lia). lia. }
      exists m1, e1. unfold shr_fexp. cbn [Zdigits2 shr_record_of_loc]. rewrite fexp_eq.
      replace (Z.max (Zpos (digits2_pos m1) + e1 - 53) (-1074) - e1) with 0 by lia.
      cbn [shr shr_m].
      repeat split.
      * unfold canonical_mantissa. rewrite fexp_eq. apply Z.eqb_eq. lia.
      * lia.
      * rewrite Z.sub_diag. cbn. lia.
Qed.

Lemma dyadic_shift (m e e0 : Z) : -3000 <= e0 <= e ->
  dyadic m e = m * 2 ^ (e - e0) * 2 ^ (e0 + 3000).
Proof.
  intros H. unfold dyadic. rewrite <- Z.mul_assoc, <- pow2_add by lia.
  do 2 f_equal. lia.
Qed.

Lemma bounded_inv (m : positive) (e : Z) :
  bounded JS.prec JS.emax m e = true ->
  -1074 <= e <= 971 /\ Zpos (digits2_pos m) <= 53 /\
  (Zpos (digits2_pos m) = 53 \/ e = -1074).
Proof.
  unfold bounded, canonical_mantissa. rewrite fexp_eq.
  intros H. apply andb_true_iff in H as [Hc He].
  apply Z.eqb_eq in Hc. apply Z.leb_le in He. change (JS.emax - JS.prec) with 971 in He. lia.
Qed.

Lemma canonical_inv (m : positive) (e : Z) :
  canonical_mantissa JS.prec JS.emax m e = true ->
  -1074 <= e /\ Zpos (digits2_pos m) <= 53 /\
  (Zpos (digits2_pos m) = 53 \/ e = -1074).
Proof.
  unfold canonical_mantissa. rewrite fexp_eq.
  intros Hc. apply Z.eqb_eq in Hc. lia.
Qed.

Lemma mantissa_lt (m : positive) : Zpos (digits2_pos m) <= 53 -> Zpos m < 2 ^ 53.
Proof.
  intros H. pose proof (digits2_bounds m) as [_ Hhi].
  assert (2 ^ Zpos (digits2_pos m) <= 2 ^ 53) by (apply pow2_le; lia). lia.
Qed.

Lemma mantissa_ge (m : positive) : Zpos (digits2_pos m) = 53 -> 2 ^ 52 <= Zpos m.
Proof.
  intros H. pose proof (digits2_bounds m) as [Hlo _]. rewrite H in Hlo. exact Hlo.
Qed.

(** Between two canonical numbers the exponent decides. *)
Lemma dyadic_lt_exponent (ma mb : positive) (ea eb : Z) :
  canonical_mantissa JS.prec JS.emax ma ea = true ->
  canonical_mantissa JS.prec JS.emax mb eb = true ->
  ea < eb -> dyadic (Zpos ma) ea < dyadic (Zpos mb) eb.
Proof.
  intros Ha Hb Hlt.
  apply canonical_inv in Ha as (Hea & Hda & _).
  apply canonical_inv in Hb as (Heb & Hdb & [Hdb53 | ?]); [| lia].
  pose proof (mantissa_lt ma Hda). pose proof (mantissa_ge mb Hdb53).
  rewrite (dyadic_shift (Zpos mb) eb ea) by lia. unfold dyadic.
  assert (0 < 2 ^ (ea + 3000)) by (apply pow2_pos; lia).
  assert (2 ^ 1 <= 2 ^ (eb - ea)) by (apply pow2_le; lia).
  change (2 ^ 1) with 2 in *.
  apply Z.mul_lt_mono_pos_r; [assumption|]. 
  change (2 ^ 53) with (2 ^ 52 * 2) in *. nia.
Qed.

(** On valid positive numbers [SFcompare] is the order of the values. *)
Lemma SFcompare_valid (ma mb : positive) (ea eb : Z) :
  canonical_mantissa JS.prec JS.emax ma ea = true ->
  canonical_mantissa JS.prec JS.emax mb eb = true ->
  SFcompare (S754_finite false ma ea) (S754_finite false mb eb) =
  Some (dyadic (Zpos ma) ea ?= dyadic (Zpos mb) eb).
Proof.
  intros Ha Hb. cbn [SFcompare]. f_equal.
  destruct (Z.compare_spec ea eb) as [Heq | Hlt | Hgt].
  - subst eb. rewrite Pos.compare_cont_spec. cbn [Pos.switch_Eq].
    pose proof (canonical_inv _ _ Ha) as (He & _).
    assert (Hp : 0 < 2 ^ (ea + 3000)) by (apply pow2_pos; lia).
    unfold dyadic. change (ma ?= mb)%positive with (Zpos ma ?= Zpos mb).
    destruct (Z.compare_spec (Zpos ma) (Zpos mb)) as [Heq | Hlt | Hgt]; symmetry.
    + apply Z.compare_eq_iff. rewrite Heq. reflexivity.
    + apply Z.compare_lt_iff. nia.
    + apply Z.compare_gt_iff. nia.
  - symmetry. apply Z.compare_lt_iff. apply dyadic_lt_exponent; assumption.
  - symmetry. apply Z.compare_gt_iff. apply dyadic_lt_exponent; assumption.
Qed.

Section Sandwich.

Variables (mm : positive) (E : Z).
Let d := Zpos (digits2_pos mm).
Let e1 := fexp JS.prec JS.emax (d + E).
Hypothesis HE : E <= e1.
Hypothesis HE0 : -3000 <= E.
Variables (mg : positive) (eg : Z).
Hypothesis Hg : canonical_mantissa JS.prec JS.emax mg eg = true.

Let out := binary_round_aux JS.prec JS.emax false (Zpos mm) E loc_Exact.

(** In the normal range a canonical number below the grid of the result
    is below the exact value. *)
Lemma below_grid : eg < e1 ->
  dyadic (Zpos mg) eg < dyadic (Zpos mm) E /\
  2 ^ 52 <= Zpos mm / 2 ^ (e1 - E).
Proof.
  intros Hlt.
  pose proof (canonical_inv _ _ Hg) as (Heg & Hdg & _).
  pose proof (mantissa_lt mg Hdg) as Hmg.
  pose proof (digits2_bounds mm) as [Hlo _]. fold d in Hlo.
  assert (He1 : e1 = Z.max (d + E - 53) (-1074)) by reflexivity.
  assert (He1' : e1 = d + E - 53) by lia.
  assert (Hsplit : 2 ^ (d - 1) = 2 ^ 52 * 2 ^ (e1 - E)).
  { rewrite <- pow2_add by lia. f_equal. lia. }
  assert (Hn : 0 <= e1 - E) by lia.
  pose proof (div_pow2_bounds (Zpos mm) (e1 - E) Hn) as Hq.
  pose proof (pow2_pos (e1 - E) Hn) as Hpn.
  split; [| nia].
  rewrite (dyadic_shift (Zpos mm) E E) by lia. rewrite Z.sub_diag, Z.mul_1_r.
  rewrite (dyadic_shift (Zpos mg) eg eg) by lia. rewrite Z.sub_diag, Z.mul_1_r.
  assert (H1 : Zpos mg * 2 ^ (eg + 3000) < 2 ^ 53 * 2 ^ (eg + 3000)).
  { apply Z.mul_lt_mono_pos_r; [apply pow2_pos; lia | assumption]. }
  assert (H2 : 2 ^ 53 * 2 ^ (eg + 3000) <= 2 ^ (d - 1) * 2 ^ (E + 3000)).
  { rewrite <- !pow2_add by lia. apply pow2_le. lia. }
  assert (H3 : 2 ^ (d - 1) * 2 ^ (E + 3000) <= Zpos mm * 2 ^ (E + 3000)).
  { apply Z.mul_le_mono_nonneg_r; [apply Z.lt_le_incl, pow2_pos; lia | assumption]. }
  lia.
Qed.

(** Rounding does not cross a canonical number above the exact value. *)
Lemma binary_round_aux_le :
  dyadic (Zpos mm) E <= dyadic (Zpos mg) eg ->
  eg <= 971 ->
  out = S754_zero false \/
  exists m e, out = S754_finite false m e /\ bounded JS.prec JS.emax m e = true /\
              dyadic (Zpos m) e <= dyadic (Zpos mg) eg.
Proof.
  intros Hle Hegmax.
  destruct (Z.ltb_spec eg e1) as [Hlt | Hge].
  { destruct (below_grid Hlt). lia. }
  destruct (binary_round_aux_spec false mm E HE) as (M1 & Hb & Hex & Hout).
  fold d in Hb, Hex, Hout. fold e1 in Hb, Hex, Hout. fold out in Hout.
  destruct Hout as [[_ Hz] | (m & e & Hc & Hee & HM1 & Ho)]; [left; exact Hz | right].
  assert (Hn : 0 <= e1 - E) by lia.
  pose proof (div_pow2_bounds (Zpos mm) (e1 - E) Hn) as Hq.
  pose proof (pow2_pos (e1 - E) Hn) as Hpn.
  pose proof (canonical_inv _ _ Hg) as (Heg & _).
  assert (He1lo : -1074 <= e1) by (unfold e1; rewrite fexp_eq; lia).
  set (G := Zpos mg * 2 ^ (eg - e1)).
  assert (HG : dyadic (Zpos mg) eg = G * 2 ^ (e1 + 3000)) by (apply dyadic_shift; lia).
  assert (HM : dyadic (Zpos mm) E = Zpos mm * 2 ^ (E + 3000)) by reflexivity.
  assert (Hp1 : 2 ^ (e1 + 3000) = 2 ^ (e1 - E) * 2 ^ (E + 3000)).
  { rewrite <- pow2_add by lia. f_equal. lia. }
  assert (HpE : 0 < 2 ^ (E + 3000)) by (apply pow2_pos; lia).
  assert (HMG : Zpos mm <= G * 2 ^ (e1 - E)).
  { rewrite HG, HM, Hp1 in Hle. nia. }
  assert (HM1G : M1 <= G).
  { destruct (Z.eq_dec (Zpos mm mod 2 ^ (e1 - E)) 0) as [H0 | Hn0].
    - rewrite (Hex H0). nia.
    - pose proof (Z.div_mod (Zpos mm) (2 ^ (e1 - E))).
      pose proof (Z.mod_pos_bound (Zpos mm) (2 ^ (e1 - E)) Hpn). nia. }
  assert (Hval : dyadic (Zpos m) e = M1 * 2 ^ (e1 + 3000)).
  { rewrite HM1. apply dyadic_shift. lia. }
  assert (Hfin : dyadic (Zpos m) e <= dyadic (Zpos mg) eg).
  { rewrite Hval, HG. apply Z.mul_le_mono_nonneg_r; [apply Z.lt_le_incl, pow2_pos; lia | assumption]. }
  assert (Hemax : e <= 971).
  { destruct (Z.leb_spec e 971); [assumption|].
    assert (dyadic (Zpos mg) eg < dyadic (Zpos m) e) by (apply dyadic_lt_exponent; [assumption .. | lia]).
    lia. }
  exists m, e. repeat split.
  - rewrite Ho. change (JS.emax - JS.prec) with 971. apply Z.leb_le in Hemax. rewrite Hemax. reflexivity.
  - unfold bounded. rewrite Hc. apply Z.leb_le. exact Hemax.
  - exact Hfin.
Qed.

(** Rounding does not cross a canonical number below the exact value. *)
Lemma binary_round_aux_ge :
  dyadic (Zpos mg) eg <= dyadic (Zpos mm) E ->
  out = S754_infinity false \/
  exists m e, out = S754_finite false m e /\ bounded JS.prec JS.emax m e = true /\
              dyadic (Zpos mg) eg <= dyadic (Zpos m) e.
Proof.
  intros Hle.
  destruct (binary_round_aux_spec false mm E HE) as (M1 & Hb & Hex & Hout).
  fold d in Hb, Hex, Hout. fold e1 in Hb, Hex, Hout. fold out in Hout.
  assert (Hn : 0 <= e1 - E) by lia.
  pose proof (div_pow2_bounds (Zpos mm) (e1 - E) Hn) as Hq.
  pose proof (pow2_pos (e1 - E) Hn) as Hpn.
  pose proof (canonical_inv _ _ Hg) as (Heg & Hdg & _).
  assert (He1lo : -1074 <= e1) by (unfold e1; rewrite fexp_eq; lia).
  assert (HpE1 : 0 < 2 ^ (e1 + 3000)) by (apply pow2_pos; lia).
  assert (HM1 : dyadic (Zpos mg) eg <= M1 * 2 ^ (e1 + 3000) /\ 0 < M1).
  { destruct (Z.ltb_spec eg e1) as [Hlt | Hge].
    - destruct (below_grid Hlt) as [_ Hq52].
      pose proof (mantissa_lt mg Hdg) as Hmg.
      assert (0 < 2 ^ 52) by (apply pow2_pos; lia).
      split; [| lia].
      rewrite (dyadic_shift (Zpos mg) eg eg) by lia. rewrite Z.sub_diag, Z.mul_1_r.
      assert (H1 : Zpos mg * 2 ^ (eg + 3000) <= 2 ^ 53 * 2 ^ (eg + 3000)).
      { apply Z.mul_le_mono_nonneg_r; [apply Z.lt_le_incl, pow2_pos; lia | lia]. }
      assert (H2 : 2 ^ 53 * 2 ^ (eg + 3000) <= 2 ^ 52 * 2 ^ (e1 + 3000)).
      { rewrite <- !pow2_add by lia. apply pow2_le. lia. }
      assert (H3 : 2 ^ 52 * 2 ^ (e1 + 3000) <= M1 * 2 ^ (e1 + 3000)).
      { apply Z.mul_le_mono_nonneg_r; lia. }
      lia.
    - set (G := Zpos mg * 2 ^ (eg - e1)).
      assert (HG : dyadic (Zpos mg) eg = G * 2 ^ (e1 + 3000)) by (apply dyadic_shift; lia).
      assert (HGpos : 0 < G).
      { unfold G. apply Z.mul_pos_pos; [lia | apply pow2_pos; lia]. }
      assert (Hp1 : 2 ^ (e1 + 3000) = 2 ^ (e1 - E) * 2 ^ (E + 3000)).
      { rewrite <- pow2_add by lia. f_equal. lia. }
      assert (HpE : 0 < 2 ^ (E + 3000)) by (apply pow2_pos; lia).
      assert (HMG : G * 2 ^ (e1 - E) <= Zpos mm).
      { unfold dyadic at 2 in Hle. rewrite HG, Hp1 in Hle. nia. }
      assert (G <= M1) by nia.
      split; [| lia]. rewrite HG. apply Z.mul_le_mono_nonneg_r; lia. }
  destruct HM1 as [HM1 HM1pos].
  destruct Hout as [[Hz _] | (m & e & Hc & Hee & HM1e & Ho)]; [lia |].
  assert (Hval : dyadic (Zpos m) e = M1 * 2 ^ (e1 + 3000)).
  { rewrite HM1e. apply dyadic_shift. lia. }
  change (JS.emax - JS.prec) with 971 in Ho.
  destruct (Z.leb_spec e 971) as [Hemax | Hover]; [right | left; exact Ho].
  exists m, e. repeat split.
  - exact Ho.
  - unfold bounded. rewrite Hc. apply Z.leb_le. exact Hemax.
  - lia.
Qed.

End Sandwich.

Lemma digits2_mul_pow2 (m : positive) (k : Z) (mz : positive) :
  0 <= k -> Zpos mz = Zpos m * 2 ^ k ->
  Zpos (digits2_pos mz) = Zpos (digits2_pos m) + k.
Proof.
  intros Hk Hmz. apply digits2_unique. rewrite Hmz.
  pose proof (digits2_bounds m) as [Hlo Hhi].
  pose proof (pow2_pos k Hk).
  replace (Zpos (digits2_pos m) + k - 1) with ((Zpos (digits2_pos m) - 1) + k) by lia.
  rewrite !pow2_add by lia. nia.
Qed.

Lemma iter_xO (m : positive) (p : positive) :
  Zpos (Pos.iter xO m p) = Zpos m * 2 ^ Zpos p.
Proof.
  induction p as [| p IH] using Pos.peano_ind.
  - cbn. lia.
  - rewrite Pos.iter_succ, Pos2Z.inj_succ, Z.pow_succ_r by lia.
    change (Zpos (Pos.iter xO m p)~0) with (2 * Zpos (Pos.iter xO m p)). rewrite IH. lia.
Qed.

(** [shl_align] keeps the value and reaches the exponent asked for when
    that one is lower. *)
Lemma shl_align_spec (mx : positive) (ex ex' : Z) :
  exists mz ez,
    shl_align mx ex ex' = (mz, ez) /\
    ez = Z.min ex ex' /\ Zpos mz = Zpos mx * 2 ^ (ex - ez).
Proof.
  unfold shl_align. destruct (ex' - ex) as [| p | p] eqn:Hd.
  - exists mx, ex. repeat split; [lia|]. rewrite Z.sub_diag. cbn. lia.
  - exists mx, ex. repeat split; [lia|]. rewrite Z.sub_diag. cbn. lia.
  - exists (Pos.iter xO mx p), ex'. repeat split; [lia|].
    rewrite iter_xO. do 2 f_equal. lia.
Qed.

(** [binary_round] hands [binary_round_aux] a mantissa that needs no
    further shift to the left, with the same value. *)
Lemma binary_round_spec (mx : positive) (ex : Z) :
  exists mz ez,
    binary_round JS.prec JS.emax false mx ex =
      binary_round_aux JS.prec JS.emax false (Zpos mz) ez loc_Exact /\
    ez <= fexp JS.prec JS.emax (Zpos (digits2_pos mz) + ez) /\
    ez = Z.min ex (fexp JS.prec JS.emax (Zpos (digits2_pos mx) + ex)) /\
    Zpos mz = Zpos mx * 2 ^ (ex - ez).
Proof.
  unfold binary_round.
  destruct (shl_align_spec mx ex (fexp JS.prec JS.emax (Zpos (digits2_pos mx) + ex)))
    as (mz & ez & -> & Hez & Hmz).
  exists mz, ez. split; [reflexivity|].
  rewrite (digits2_mul_pow2 mx (ex - ez) mz) by (assumption || lia).
  replace (Zpos (digits2_pos mx) + (ex - ez) + ez) with (Zpos (digits2_pos mx) + ex) by lia.
  repeat split; try assumption. lia.
Qed.

Lemma value_finite (m : positive) (e : Z) :
  value (S754_finite false m e) = dyadic (Zpos m) e.
Proof. reflexivity. Qed.

(** The number of a positive integer: valid, whole, and on the same side
    of every valid number as the integer. *)
Lemma of_Z_pos_spec (n : positive) :
  JS.of_Z (Zpos n) <> S754_zero false /\
  nonneg (JS.of_Z (Zpos n)) = true /\ integral (JS.of_Z (Zpos n)) /\
  forall mg eg, bounded JS.prec JS.emax mg eg = true ->
    (Zpos n * 2 ^ 3000 <= dyadic (Zpos mg) eg ->
       positive_finite (JS.of_Z (Zpos n)) = true /\
       value (JS.of_Z (Zpos n)) <= dyadic (Zpos mg) eg) /\
    (dyadic (Zpos mg) eg <= Zpos n * 2 ^ 3000 ->
       JS.of_Z (Zpos n) = S754_infinity false \/
       dyadic (Zpos mg) eg <= value (JS.of_Z (Zpos n))).
Proof.
  unfold JS.of_Z. cbn [binary_normalize].
  destruct (binary_round_spec n 0) as (mz & ez & -> & Hpre & Hez & Hmz).
  assert (Hez0 : -1074 <= ez <= 0) by (rewrite Hez, fexp_eq; lia).
  assert (Hdy : dyadic (Zpos mz) ez = Zpos n * 2 ^ 3000).
  { unfold dyadic. rewrite Hmz, <- Z.mul_assoc, <- pow2_add by lia. do 2 f_equal. lia. }
  (* a unit below every positive number shows the result is not zero *)
  assert (Hunit : bounded JS.prec JS.emax 1 (-1074) = true) by reflexivity.
  assert (Hone : dyadic 1 (-1074) <= dyadic (Zpos mz) ez).
  { rewrite Hdy. unfold dyadic. change (-1074 + 3000) with 1926.
    assert (2 ^ 1926 <= 2 ^ 3000) by (apply pow2_le; lia). nia. }
  assert (Hnz : binary_round_aux JS.prec JS.emax false (Zpos mz) ez loc_Exact <> S754_zero false).
  { destruct (binary_round_aux_ge mz ez Hpre ltac:(lia) 1 (-1074) ltac:(reflexivity) Hone)
      as [-> | (m & e & -> & _)]; discriminate. }
  split; [exact Hnz|].
  destruct (binary_round_aux_spec false mz ez Hpre) as (M1 & Hb & Hex & Hout).
  split; [| split].
  - destruct Hout as [[_ ->] | (m & e & Hc & _ & _ & ->)]; [reflexivity|].
    change (JS.emax - JS.prec) with 971. destruct (Z.leb_spec e 971) as [Hle | Hgt]; [|reflexivity].
    cbn [nonneg]. unfold bounded. rewrite Hc. apply Z.leb_le. exact Hle.
  - destruct Hout as [[_ ->] | (m & e & Hc & Hee & HM1 & ->)]; [exists 0; reflexivity|].
    change (JS.emax - JS.prec) with 971. destruct (Z.leb_spec e 971) as [Hle | Hgt]; [|exists 0; reflexivity].
    unfold integral. rewrite value_finite.
    set (e1 := fexp JS.prec JS.emax (Zpos (digits2_pos mz) + ez)) in *.
    assert (He1lo : -1074 <= e1) by (unfold e1; rewrite fexp_eq; lia).
    rewrite (dyadic_shift (Zpos m) e e1) by lia. rewrite <- HM1.
    destruct (Z.eq_dec ez 0) as [Hz | Hnz0].
    + exists (M1 * 2 ^ e1). rewrite <- Z.mul_assoc, <- pow2_add by lia. reflexivity.
    + (* the mantissa was shifted to the left: nothing is rounded away *)
      assert (He1 : e1 = ez).
      { unfold e1. rewrite (digits2_mul_pow2 n (0 - ez) mz) by (assumption || lia).
        replace (Zpos (digits2_pos n) + (0 - ez) + ez) with (Zpos (digits2_pos n) + 0) by lia.
        lia. }
      rewrite He1, Z.sub_diag in Hex, Hb. rewrite Z.pow_0_r, Z.mod_1_r, Z.div_1_r in Hex.
      rewrite (Hex eq_refl), He1. exists (Zpos n). exact Hdy.
  - intros mg eg Hg. pose proof (bounded_inv _ _ Hg) as (Heg & _).
    assert (Hcg : canonical_mantissa JS.prec JS.emax mg eg = true).
    { unfold bounded in Hg. apply andb_true_iff in Hg. tauto. }
    split; intros Hle; rewrite <- Hdy in Hle.
    + destruct (binary_round_aux_le mz ez Hpre ltac:(lia) mg eg Hcg Hle ltac:(lia))
        as [Hz | (m & e & -> & Hbd & Hv)]; [contradiction|].
      split; [exact Hbd | exact Hv].
    + destruct (binary_round_aux_ge mz ez Hpre ltac:(lia) mg eg Hcg Hle)
        as [-> | (m & e & -> & Hbd & Hv)]; [left; reflexivity | right; exact Hv].
Qed.

(** The exact product of two valid numbers needs no shift to the left. *)
Lemma mul_aligned (mx my : positive) (ex ey : Z) :
  bounded JS.prec JS.emax mx ex = true -> bounded JS.prec JS.emax my ey = true ->
  ex + ey <= fexp JS.prec JS.emax (Zpos (digits2_pos (mx * my)) + (ex + ey)) /\
  -3000 <= ex + ey.
Proof.
  intros Hx Hy.
  apply bounded_inv in Hx as (Hex & Hdx & Hnx).
  apply bounded_inv in Hy as (Hey & Hdy & Hny).
  split; [| lia]. rewrite fexp_eq.
  pose proof (digits2_bounds mx) as [Hxlo _].
  pose proof (digits2_bounds my) as [Hylo _].
  pose proof (digits2_bounds (mx * my)) as [_ Hhi].
  rewrite Pos2Z.inj_mul in Hhi.
  assert (Hd : Zpos (digits2_pos mx) + Zpos (digits2_pos my) - 1 <= Zpos (digits2_pos (mx * my))).
  { destruct (Z.leb_spec (Zpos (digits2_pos mx) + Zpos (digits2_pos my) - 1) (Zpos (digits2_pos (mx * my)))); [assumption|].
    assert (2 ^ Zpos (digits2_pos (mx * my)) <= 2 ^ ((Zpos (digits2_pos mx) - 1) + (Zpos (digits2_pos my) - 1)))
      by (apply pow2_le; lia).
    rewrite pow2_add in H0 by lia.
    assert (0 < 2 ^ (Zpos (digits2_pos mx) - 1)) by (apply pow2_pos; lia).
    assert (0 < 2 ^ (Zpos (digits2_pos my) - 1)) by (apply pow2_pos; lia).
    nia. }
  lia.
Qed.

Lemma dyadic_mul (mx my : positive) (ex ey : Z) :
  -3000 <= ex -> -3000 <= ey -> -3000 <= ex + ey ->
  dyadic (Zpos (mx * my)) (ex + ey) * 2 ^ 3000 = dyadic (Zpos mx) ex * dyadic (Zpos my) ey.
Proof.
  intros. unfold dyadic. rewrite Pos2Z.inj_mul.
  transitivity (Zpos mx * Zpos my * (2 ^ (ex + ey + 3000) * 2 ^ 3000)); [ring|].
  rewrite <- pow2_add by lia.
  transitivity (Zpos mx * Zpos my * (2 ^ (ex + 3000) * 2 ^ (ey + 3000))); [|ring].
  rewrite <- pow2_add by lia. do 2 f_equal. lia.
Qed.

(** Multiplying a valid positive number by a valid factor. *)
Lemma mul_positive_finite (mx mc : positive) (ex ec : Z) :
  bounded JS.prec JS.emax mx ex = true -> bounded JS.prec JS.emax mc ec = true ->
  nonneg (JS.mul (S754_finite false mx ex) (S754_finite false mc ec)) = true /\
  (dyadic (Zpos mc) ec <= 2 ^ 3000 ->
     nonneg (JS.mul (S754_finite false mx ex) (S754_finite false mc ec)) = true /\
     JS.mul (S754_finite false mx ex) (S754_finite false mc ec) <> S754_infinity false /\
     value (JS.mul (S754_finite false mx ex) (S754_finite false mc ec)) <= dyadic (Zpos mx) ex) /\
  (2 ^ 3000 <= dyadic (Zpos mc) ec ->
     JS.mul (S754_finite false mx ex) (S754_finite false mc ec) = S754_infinity false \/
     positive_finite (JS.mul (S754_finite false mx ex) (S754_finite false mc ec)) = true /\
     dyadic (Zpos mx) ex <= value (JS.mul (S754_finite false mx ex) (S754_finite false mc ec))).
Proof.
  intros Hx Hc. unfold JS.mul. cbn [SFmul xorb].
  destruct (mul_aligned mx mc ex ec Hx Hc) as [Hpre Hlo].
  pose proof (bounded_inv _ _ Hx) as (Hex & _).
  pose proof (bounded_inv _ _ Hc) as (Hec & _).
  assert (Hcx : canonical_mantissa JS.prec JS.emax mx ex = true).
  { unfold bounded in Hx. apply andb_true_iff in Hx. tauto. }
  pose proof (dyadic_mul mx mc ex ec ltac:(lia) ltac:(lia) Hlo) as Hprod.
  assert (Hp : 0 < 2 ^ 3000) by (apply pow2_pos; lia).
  assert (Hxpos : 0 < dyadic (Zpos mx) ex).
  { unfold dyadic. apply Z.mul_pos_pos; [lia | apply pow2_pos; lia]. }
  assert (Hnn : nonneg (binary_round_aux JS.prec JS.emax false (Zpos (mx * mc)) (ex + ec) loc_Exact) = true).
  { destruct (binary_round_aux_spec false (mx * mc) (ex + ec) Hpre) as (M1 & _ & _ & Hout).
    destruct Hout as [[_ ->] | (m & e & Hcm & _ & _ & ->)]; [reflexivity|].
    change (JS.emax - JS.prec) with 971. destruct (Z.leb_spec e 971) as [Hle | Hgt]; [|reflexivity].
    cbn [nonneg]. unfold bounded. rewrite Hcm. apply Z.leb_le. exact Hle. }
  split; [exact Hnn|]. split.
  - intros Hc1. split; [exact Hnn|].
    assert (Hle : dyadic (Zpos (mx * mc)) (ex + ec) <= dyadic (Zpos mx) ex) by nia.
    destruct (binary_round_aux_le (mx * mc) (ex + ec) Hpre Hlo mx ex Hcx Hle ltac:(lia))
      as [-> | (m & e & -> & Hbd & Hv)].
    + split; [discriminate|]. cbn [value]. lia.
    + split; [discriminate|]. exact Hv.
  - intros Hc1.
    assert (Hle : dyadic (Zpos mx) ex <= dyadic (Zpos (mx * mc)) (ex + ec)) by nia.
    destruct (binary_round_aux_ge (mx * mc) (ex + ec) Hpre Hlo mx ex Hcx Hle)
      as [-> | (m & e & -> & Hbd & Hv)]; [left; reflexivity | right].
    split; [exact Hbd | exact Hv].
Qed.

Lemma positive_finite_inv (x : JS.number) :
  positive_finite x = true ->
  exists m e, x = S754_finite false m e /\ bounded JS.prec JS.emax m e = true.
Proof.
  destruct x as [| | | [|] m e]; cbn; try discriminate. intros H. exists m, e. auto.
Qed.

Lemma bounded_canonical (m : positive) (e : Z) :
  bounded JS.prec JS.emax m e = true -> canonical_mantissa JS.prec JS.emax m e = true.
Proof. unfold bounded. intros H. apply andb_true_iff in H. tauto. Qed.

Lemma dyadic_pos (m : positive) (e : Z) : -3000 <= e -> 0 < dyadic (Zpos m) e.
Proof. intros. unfold dyadic. apply Z.mul_pos_pos; [lia | apply pow2_pos; lia]. Qed.

Lemma mul_nonneg (x c : JS.number) :
  nonneg x = true -> positive_finite c = true -> nonneg (JS.mul x c) = true.
Proof.
  intros Hx Hc. apply positive_finite_inv in Hc as (mc & ec & -> & Hc).
  destruct x as [[|] | [|] | | [|] m e]; try discriminate; try reflexivity.
  exact (proj1 (mul_positive_finite m mc e ec Hx Hc)).
Qed.

Lemma of_Z_nonneg (n : Z) : 0 <= n -> nonneg (JS.of_Z n) = true.
Proof.
  intros Hn. destruct n as [| p | p]; [reflexivity | | lia].
  apply of_Z_pos_spec.
Qed.

(** The integer [Math.round] picks for a positive number with a negative
    exponent. *)
Lemma round_quotient_bounds (m : positive) (e : Z) : e < 0 ->
  let n := (2 * Zpos m + 2 ^ (- e)) / 2 ^ (1 - e) in
  0 <= n /\
  n * 2 ^ (1 - e) <= 2 * Zpos m + 2 ^ (- e) < (n + 1) * 2 ^ (1 - e).
Proof.
  intros He n.
  assert (Hp : 0 < 2 ^ (- e)) by (apply pow2_pos; lia).
  split.
  - apply Z.div_pos; [lia | apply pow2_pos; lia].
  - apply div_pow2_bounds. lia.
Qed.

Lemma Math_round_nonneg (x : JS.number) :
  nonneg x = true -> nonneg (JS.Math_round x) = true /\ integral (JS.Math_round x).
Proof.
  intros Hx.
  destruct x as [[|] | [|] | | [|] m e]; try discriminate;
    try (split; [reflexivity | exists 0; reflexivity]).
  cbn [nonneg] in Hx. unfold JS.Math_round.
  pose proof (bounded_inv _ _ Hx) as (He & _).
  destruct (Z.leb_spec 0 e) as [Hpos | Hneg].
  - split; [exact Hx|]. exists (Zpos m * 2 ^ e). cbn [value]. unfold dyadic.
    rewrite <- Z.mul_assoc, <- pow2_add by lia. reflexivity.
  - destruct (round_quotient_bounds m e Hneg) as [Hn0 _]. cbv zeta in Hn0.
    destruct ((2 * Zpos m + 2 ^ (- e)) / 2 ^ (1 - e)) as [| n | n]; [| | lia].
    + split; [reflexivity | exists 0; reflexivity].
    + cbn [Z.eqb]. pose proof (of_Z_pos_spec n) as (_ & ? & ? & _). split; assumption.
Qed.

(** [Math.round] does not cross a whole valid number above its
    argument. *)
Lemma Math_round_le (x : JS.number) (mg : positive) (eg : Z) :
  nonneg x = true -> x <> S754_infinity false ->
  bounded JS.prec JS.emax mg eg = true -> integral (S754_finite false mg eg) ->
  value x <= dyadic (Zpos mg) eg ->
  nonneg (JS.Math_round x) = true /\ JS.Math_round x <> S754_infinity false /\
  value (JS.Math_round x) <= dyadic (Zpos mg) eg.
Proof.
  intros Hx Hinf Hg [k Hk] Hle. cbn [value] in Hk.
  pose proof (bounded_inv _ _ Hg) as (Heg & _).
  pose proof (dyadic_pos mg eg ltac:(lia)) as Hgpos.
  destruct x as [[|] | [|] | | [|] m e]; try discriminate; try contradiction.
  - split; [reflexivity | split; [discriminate | unfold JS.Math_round; cbn [value]; lia]].
  - cbn [nonneg] in Hx. unfold JS.Math_round; cbn [value] in *.
    pose proof (bounded_inv _ _ Hx) as (He & _).
    destruct (Z.leb_spec 0 e) as [Hpos | Hneg].
    + repeat split; [exact Hx | discriminate | exact Hle].
    + destruct (round_quotient_bounds m e Hneg) as [Hn0 Hn]. cbv zeta in Hn0, Hn.
      assert (Hp : 0 < 2 ^ (- e)) by (apply pow2_pos; lia).
      assert (Hp1 : 2 ^ (1 - e) = 2 * 2 ^ (- e)).
      { replace (1 - e) with (1 + - e) by lia. rewrite pow2_add by lia. reflexivity. }
      assert (Hp3 : 2 ^ 3000 = 2 ^ (- e) * 2 ^ (e + 3000)).
      { rewrite <- pow2_add by lia. f_equal. lia. }
      assert (Hpe : 0 < 2 ^ (e + 3000)) by (apply pow2_pos; lia).
      assert (Hmk : Zpos m <= k * 2 ^ (- e)).
      { unfold dyadic in Hle at 1. rewrite Hk, Hp3 in Hle. nia. }
      remember ((2 * Zpos m + 2 ^ (- e)) / 2 ^ (1 - e)) as n eqn:Heqn.
      assert (Hnk : n <= k) by nia.
      destruct n as [| n | n]; [| | lia].
      * cbn [Z.eqb]. split; [reflexivity | split; [discriminate | cbn [value]; lia]].
      * cbn [Z.eqb]. pose proof (of_Z_pos_spec n) as (_ & Hnn & _ & Hsand).
        destruct (Hsand mg eg Hg) as [Hup _].
        assert (Hd : Zpos n * 2 ^ 3000 <= dyadic (Zpos mg) eg).
        { rewrite Hk. apply Z.mul_le_mono_nonneg_r; lia. }
        destruct (Hup Hd) as [Hpf Hv]. repeat split; [exact Hnn | | exact Hv].
        intros Heq. rewrite Heq in Hpf. discriminate.
Qed.

(** [Math.round] does not cross a whole valid number below its
    argument. *)
Lemma Math_round_ge (x : JS.number) (mg : positive) (eg : Z) :
  positive_finite x = true ->
  bounded JS.prec JS.emax mg eg = true -> integral (S754_finite false mg eg) ->
  dyadic (Zpos mg) eg <= value x ->
  JS.Math_round x = S754_infinity false \/
  positive_finite (JS.Math_round x) = true /\ dyadic (Zpos mg) eg <= value (JS.Math_round x).
Proof.
  intros Hx Hg [k Hk] Hle. cbn [value] in Hk.
  pose proof (bounded_inv _ _ Hg) as (Heg & _).
  pose proof (dyadic_pos mg eg ltac:(lia)) as Hgpos.
  apply positive_finite_inv in Hx as (m & e & -> & Hx).
  unfold JS.Math_round; cbn [value] in *.
  pose proof (bounded_inv _ _ Hx) as (He & _).
  destruct (Z.leb_spec 0 e) as [Hpos | Hneg].
  - right. split; [exact Hx | exact Hle].
  - destruct (round_quotient_bounds m e Hneg) as [Hn0 Hn]. cbv zeta in Hn0, Hn.
    assert (Hp : 0 < 2 ^ (- e)) by (apply pow2_pos; lia).
    assert (Hp1 : 2 ^ (1 - e) = 2 * 2 ^ (- e)).
    { replace (1 - e) with (1 + - e) by lia. rewrite pow2_add by lia. reflexivity. }
    assert (Hp3 : 2 ^ 3000 = 2 ^ (- e) * 2 ^ (e + 3000)).
    { rewrite <- pow2_add by lia. f_equal. lia. }
    assert (Hpe : 0 < 2 ^ (e + 3000)) by (apply pow2_pos; lia).
    assert (H3000 : 0 < 2 ^ 3000) by (apply pow2_pos; lia).
    assert (Hkpos : 0 < k) by nia.
    assert (Hmk : k * 2 ^ (- e) <= Zpos m).
    { unfold dyadic in Hle at 2. rewrite Hk, Hp3 in Hle. nia. }
    remember ((2 * Zpos m + 2 ^ (- e)) / 2 ^ (1 - e)) as n eqn:Heqn.
    assert (Hnk : k <= n) by nia.
    destruct n as [| n | n]; [lia | | lia].
    cbn [Z.eqb]. pose proof (of_Z_pos_spec n) as (Hnz & Hnn & _ & Hsand).
    destruct (Hsand mg eg Hg) as [_ Hdown].
    assert (Hd : dyadic (Zpos mg) eg <= Zpos n * 2 ^ 3000).
    { rewrite Hk. apply Z.mul_le_mono_nonneg_r; lia. }
    destruct (Hdown Hd) as [Hinf | Hv]; [left; exact Hinf | right].
    split; [| exact Hv].
    destruct (JS.of_Z (Zpos n)) as [[|] | [|] | | [|] m' e']; cbn [value] in Hv; try lia.
    exact Hnn.
Qed.

Lemma SFleb_value (a : JS.number) (mb : positive) (eb : Z) :
  nonneg a = true -> a <> S754_infinity false ->
  bounded JS.prec JS.emax mb eb = true ->
  value a <= dyadic (Zpos mb) eb ->
  SFleb a (S754_finite false mb eb) = true.
Proof.
  intros Ha Hinf Hb Hle.
  destruct a as [[|] | [|] | | [|] m e]; try discriminate; try contradiction; [reflexivity|].
  cbn [nonneg value] in *. unfold SFleb.
  rewrite SFcompare_valid by (apply bounded_canonical; assumption).
  destruct (Z.compare_spec (dyadic (Zpos m) e) (dyadic (Zpos mb) eb)); try reflexivity. lia.
Qed.

Lemma SFleb_value_ge (mb : positive) (eb : Z) (a : JS.number) :
  bounded JS.prec JS.emax mb eb = true ->
  (a = S754_infinity false \/
   positive_finite a = true /\ dyadic (Zpos mb) eb <= value a) ->
  SFleb (S754_finite false mb eb) a = true.
Proof.
  intros Hb [-> | [Ha Hle]]; [reflexivity|].
  apply positive_finite_inv in Ha as (m & e & -> & Ha). cbn [value] in Hle.
  unfold SFleb. rewrite SFcompare_valid by (apply bounded_canonical; assumption).
  destruct (Z.compare_spec (dyadic (Zpos mb) eb) (dyadic (Zpos m) e)); try reflexivity. lia.
Qed.

(** The band around a rounded estimate: scaling a positive whole number
    down by a factor below one and up by a factor above one, each
    followed by [Math.round], brackets it. *)
Theorem round_band (est lo hi : JS.number) :
  nonneg est = true -> integral est ->
  positive_finite lo = true -> value lo <= 2 ^ 3000 ->
  positive_finite hi = true -> 2 ^ 3000 <= value hi ->
  JS.gt est (S754_zero false) = true ->
  JS.ge est (JS.Math_round (JS.mul est lo)) = true /\
  JS.ge (JS.Math_round (JS.mul est hi)) est = true.
Proof.
  intros Hest Hint Hlo Hlov Hhi Hhiv Hgt.
  apply positive_finite_inv in Hlo as (ml & el & -> & Hlo).
  apply positive_finite_inv in Hhi as (mh & eh & -> & Hhi).
  cbn [value] in Hlov, Hhiv.
  destruct est as [[|] | [|] | | [|] m e]; try discriminate.
  - split; reflexivity.
  - cbn [nonneg] in Hest. unfold JS.ge. split.
    + destruct (mul_positive_finite m ml e el Hest Hlo) as (_ & Hdown & _).
      destruct (Hdown Hlov) as (Hnn & Hninf & Hv).
      destruct (Math_round_le _ m e Hnn Hninf Hest Hint Hv) as (Hrn & Hrinf & Hrv).
      apply SFleb_value; assumption.
    + destruct (mul_positive_finite m mh e eh Hest Hhi) as (_ & _ & Hup).
      apply SFleb_value_ge; [exact Hest|].
      destruct (Hup Hhiv) as [-> | [Hpf Hv]]; [left; reflexivity|].
      apply Math_round_ge; assumption.
Qed.

(** ** Reads of the index objects *)

Lemma own_In {A} (data : list (string * A)) (k : string) (v : A) :
  Obj.own data k = Some v -> In v (map snd data).
Proof.
  induction data as [| [k' v'] rest IH]; cbn [Obj.own map snd]; [discriminate|].
  destruct (String.eqb k k').
  - intros [= ->]. left. reflexivity.
  - intros H. right. apply IH, H.
Qed.

Lemma get_objects (data : list (string * Obj.table)) (k : string) (o : Obj.value) :
  Obj.get data k = Some o -> In o (Obj.objects data).
Proof.
  unfold Obj.get, Obj.objects. destruct (Obj.own data k) as [t |] eqn:Hown.
  - intros [= <-]. right. apply in_map. eapply own_In, Hown.
  - destruct (Obj.inherited k); [intros [= <-]; left; reflexivity | discriminate].
Qed.

Lemma lookup_In (t : Obj.table) (y : Z) (v : JS.number) :
  Obj.lookup t y = Some v -> In (y, v) t.
Proof.
  induction t as [| [y' v'] rest IH]; cbn [Obj.lookup]; [discriminate|].
  destruct (Z.eqb_spec y y') as [-> | Hne].
  - intros [= ->]. left. reflexivity.
  - intros H. right. apply IH, H.
Qed.

Lemma lookup_keys (t : Obj.table) (y : Z) :
  In y (map fst t) -> exists v, Obj.lookup t y = Some v.
Proof.
  induction t as [| [y' v'] rest IH]; cbn [Obj.lookup map fst]; [intros []|].
  destruct (Z.eqb_spec y y') as [-> | Hne].
  - intros _. exists v'. reflexivity.
  - intros [Heq | Hin]; [congruence | apply IH, Hin].
Qed.

(** A read with a default yields the default or a stored number. *)
Lemma or_default_In (o : Obj.value) (y : option Z) (d : JS.number) :
  In (JS.or_default (Obj.get_year o y) d) (d :: Obj.values o).
Proof.
  destruct o as [t |], y as [y |]; cbn [Obj.get_year JS.or_default]; try (left; reflexivity).
  destruct (Obj.lookup t y) as [v |] eqn:Hl; cbn [JS.or_default]; [| left; reflexivity].
  destruct (JS.truthy v); [| left; reflexivity].
  right. cbn [Obj.values]. apply lookup_In in Hl.
  change v with (snd (y, v)). apply in_map, Hl.
Qed.


(** A property checked on the default and on every stored number holds
    of the number a read with that default yields. *)
Lemma or_default_check (P : JS.number -> bool) (o : Obj.value) (y : option Z)
    (d : JS.number) :
  forallb P (d :: Obj.values o) = true ->
  P (JS.or_default (Obj.get_year o y) d) = true.
Proof.
  intros H. rewrite forallb_forall in H. apply H, or_default_In.
Qed.

Lemma App_indexData_total (k : string) :
  exists idx, App.indexData k = Some idx /\ In idx (Obj.objects App.HPI_DATA).
Proof.
  unfold App.indexData. destruct (Obj.get App.HPI_DATA k) as [o |] eqn:Hget.
  - exists o. split; [reflexivity | eapply get_objects, Hget].
  - destruct (Obj.get App.HPI_DATA "UK Average") as [o |] eqn:Huk.
    + exists o. split; [reflexivity | eapply get_objects, Huk].
    + vm_compute in Huk. discriminate.
Qed.

Lemma AppChart_indexData_total (k : string) :
  exists idx, AppChart.indexData k = Some idx /\ In idx (Obj.objects AppChart.HPI_DATA).
Proof.
  unfold AppChart.indexData. destruct (Obj.get AppChart.HPI_DATA k) as [o |] eqn:Hget.
  - exists o. split; [reflexivity | eapply get_objects, Hget].
  - destruct (Obj.get AppChart.HPI_DATA "UK Average") as [o |] eqn:Huk.
    + exists o. split; [reflexivity | eapply get_objects, Huk].
    + vm_compute in Huk. discriminate.
Qed.

(** Every table holds the current year, with an index that is neither
    zero nor NaN: on a table the current-year default is never used. *)
Lemma current_year_present (t : Obj.table) :
  In t (map snd App.HPI_DATA ++ map snd AppChart.HPI_DATA) ->
  exists v, Obj.lookup t 2024 = Some v /\ JS.truthy v = true.
Proof.
  assert (Hall : forallb (fun t => match Obj.lookup t 2024 with
                                   | Some v => JS.truthy v
                                   | None => false
                                   end)
                   (map snd App.HPI_DATA ++ map snd AppChart.HPI_DATA) = true)
    by (vm_compute; reflexivity).
  rewrite forallb_forall in Hall. intros Hin. specialize (Hall t Hin).
  destruct (Obj.lookup t 2024) as [v |]; [exists v; auto | discriminate].
Qed.

(** The growth factor is a valid positive number on every index object
    and for every sold year. *)
Lemma App_growth_positive_finite (idx : Obj.value) (y : option Z) :
  In idx (Obj.objects App.HPI_DATA) ->
  positive_finite (JS.div (App.indexNew idx) (App.indexOld idx y)) = true.
Proof.
  intros Hin.
  assert (Hall : forallb (fun o => forallb (fun old => positive_finite (JS.div (App.indexNew o) old))
                                       (JS.of_Z 100 :: Obj.values o))
                         (Obj.objects App.HPI_DATA) = true) by (vm_compute; reflexivity).
  rewrite forallb_forall in Hall. specialize (Hall idx Hin).
  unfold App.indexOld.
  exact (or_default_check (fun old => positive_finite (JS.div (App.indexNew idx) old)) idx y _ Hall).
Qed.

Lemma AppChart_growth_positive_finite (idx : Obj.value) (y : option Z) :
  In idx (Obj.objects AppChart.HPI_DATA) ->
  positive_finite (JS.div (AppChart.indexNew idx) (AppChart.indexOld idx y)) = true.
Proof.
  intros Hin.
  assert (Hall : forallb (fun o => forallb (fun old => positive_finite (JS.div (AppChart.indexNew o) old))
                                       (JS.of_Z 100 :: Obj.values o))
                         (Obj.objects AppChart.HPI_DATA) = true) by (vm_compute; reflexivity).
  rewrite forallb_forall in Hall. specialize (Hall idx Hin).
  unfold AppChart.indexOld.
  exact (or_default_check (fun old => positive_finite (JS.div (AppChart.indexNew idx) old)) idx y _ Hall).
Qed.

(** ** Numbers of the engine *)

Lemma of_Z_zero : JS.of_Z 0 = S754_zero false.
Proof. reflexivity. Qed.

Lemma price_nonneg (p : Property) : nonneg (price p) = true.
Proof. unfold price. apply of_Z_nonneg. lia. Qed.

Lemma price_gt_zero (p : Property) :
  (0 < lastSoldPrice p)%N -> JS.gt (price p) (JS.of_Z 0) = true.
Proof.
  intros Hp. unfold price. destruct (lastSoldPrice p) as [| n]; [lia|].
  change (Z.of_N (N.pos n)) with (Zpos n). rewrite of_Z_zero.
  destruct (of_Z_pos_spec n) as (Hnz & Hnn & _).
  destruct (JS.of_Z (Zpos n)) as [[|] | [|] | | [|] m e]; try discriminate; try reflexivity.
  contradiction Hnz; reflexivity.
Qed.

Lemma price_zero (p : Property) :
  lastSoldPrice p = 0%N -> price p = S754_zero false.
Proof. intros H. unfold price. rewrite H. reflexivity. Qed.

Lemma nonneg_not_nan (x : JS.number) : nonneg x = true -> JS.is_nan x = false.
Proof. destruct x as [[|] | [|] | | [|] m e]; cbn; congruence. Qed.

Lemma positive_finite_nonneg (x : JS.number) : positive_finite x = true -> nonneg x = true.
Proof. destruct x as [[|] | [|] | | [|] m e]; cbn; congruence. Qed.

Lemma positive_finite_gt (x : JS.number) :
  positive_finite x = true -> JS.gt x (JS.of_Z 0) = true.
Proof. destruct x as [[|] | [|] | | [|] m e]; cbn; try discriminate. reflexivity. Qed.

Lemma factor_95 :
  positive_finite (JS.decimal 95 2) = true /\ value (JS.decimal 95 2) <= 2 ^ 3000.
Proof. split; [reflexivity | apply Z.leb_le; vm_compute; reflexivity]. Qed.

Lemma factor_105 :
  positive_finite (JS.decimal 105 2) = true /\ 2 ^ 3000 <= value (JS.decimal 105 2).
Proof. split; [reflexivity | apply Z.leb_le; vm_compute; reflexivity]. Qed.

(** Multiplication of numbers is commutative. *)
Lemma mul_comm (x y : JS.number) : JS.mul x y = JS.mul y x.
Proof.
  unfold JS.mul.
  destruct x as [[|] | [|] | | [|] mx ex], y as [[|] | [|] | | [|] my ey];
    cbn [SFmul xorb]; try reflexivity;
    rewrite (Pos.mul_comm mx my), (Z.add_comm ex ey); reflexivity.
Qed.

Lemma estimate_whole (x gf : JS.number) :
  nonneg x = true -> positive_finite gf = true ->
  nonneg (JS.Math_round (JS.mul x gf)) = true /\
  integral (JS.Math_round (JS.mul x gf)).
Proof. intros Hx Hgf. apply Math_round_nonneg, mul_nonneg; assumption. Qed.

Lemma zero_whole : nonneg (JS.of_Z 0) = true /\ integral (JS.of_Z 0).
Proof. split; [reflexivity | exists 0; reflexivity]. Qed.

(** A bound of the band is a number, never NaN. *)
Lemma bound_nonneg (est c : JS.number) :
  nonneg est = true -> positive_finite c = true ->
  nonneg (JS.Math_round (JS.mul est c)) = true.
Proof. intros He Hc. apply estimate_whole; assumption. Qed.

Lemma mul_zero_positive (c : JS.number) :
  positive_finite c = true -> JS.mul (S754_zero false) c = S754_zero false.
Proof. destruct c as [[|] | [|] | | [|] m e]; cbn; try discriminate. reflexivity. Qed.

(** ** Years of the tables *)

Lemma ascending_Sorted (l : list Z) : Obj.ascending l = true -> Sorted Z.lt l.
Proof.
  induction l as [| y rest IH]; [constructor|].
  cbn [Obj.ascending]. destruct rest as [| y' rest'].
  - intros _. repeat constructor.
  - intros H. apply andb_true_iff in H as [Hlt Hrest].
    constructor; [apply IH, Hrest | constructor; apply Z.ltb_lt, Hlt].
Qed.

Lemma ascending_StronglySorted (l : list Z) :
  Obj.ascending l = true -> StronglySorted Z.lt l.
Proof.
  intros H. apply Sorted_StronglySorted; [| apply ascending_Sorted, H].
  intros a b c. apply Z.lt_trans.
Qed.

Lemma StronglySorted_filter (f : Z -> bool) (l : list Z) :
  StronglySorted Z.lt l -> StronglySorted Z.lt (filter f l).
Proof.
  induction 1 as [| y rest Hs IH Hall]; cbn [filter]; [constructor|].
  destruct (f y); [| exact IH].
  constructor; [exact IH|].
  rewrite Forall_forall in *. intros z Hz. apply filter_In in Hz as [Hz _]. apply Hall, Hz.
Qed.

Lemma keys_ascending (idx : Obj.value) :
  In idx (Obj.objects App.HPI_DATA) \/ In idx (Obj.objects AppChart.HPI_DATA) ->
  Obj.ascending (Obj.keys idx) = true.
Proof.
  assert (Hall : forallb (fun o => Obj.ascending (Obj.keys o))
                   (Obj.objects App.HPI_DATA ++ Obj.objects AppChart.HPI_DATA) = true)
    by (vm_compute; reflexivity).
  rewrite forallb_forall in Hall. intros H. apply Hall, in_or_app, H.
Qed.

Lemma keys_get_year (idx : Obj.value) (y : Z) :
  In y (Obj.keys idx) ->
  exists v, Obj.get_year idx (Some y) = Some v /\ In v (Obj.values idx).
Proof.
  destruct idx as [t |]; cbn [Obj.keys Obj.get_year Obj.values]; [| intros []].
  intros Hy. destruct (lookup_keys t y Hy) as [v Hv]. exists v. split; [exact Hv|].
  apply lookup_In in Hv. change v with (snd (y, v)). apply in_map, Hv.
Qed.

Lemma map_year_chartPoint (p : Property) (idx : Obj.value) (old : JS.number) (l : list Z) :
  map AppChart.year (map (AppChart.chartPoint p idx old) l) = l.
Proof.
  induction l as [| y rest IH]; [reflexivity|]. cbn [map]. rewrite IH. reflexivity.
Qed.

(** A point of the series holds a year of the index object, the number
    stored for it and the rounded scaled price. *)
Lemma chart_points (p : Property) (idx : Obj.value) (old : JS.number)
    (sy : option Z) (pt : AppChart.ChartPoint) :
  In pt (map (AppChart.chartPoint p idx old)
             (filter (fun year => AppChart.year_ge year sy) (Obj.keys idx))) ->
  exists v,
    In v (Obj.values idx) /\
    Obj.get_year idx (Some (AppChart.year pt)) = Some v /\
    AppChart.index pt = Some v /\
    AppChart.value pt = JS.Math_round (JS.mul (price p) (JS.div v old)).
Proof.
  intros Hpt. apply in_map_iff in Hpt as (y & <- & Hy).
  apply filter_In in Hy as [Hy _].
  destruct (keys_get_year idx y Hy) as (v & Hv & Hvin).
  exists v. unfold AppChart.chartPoint. cbn [AppChart.year AppChart.index AppChart.value].
  rewrite Hv. split; [exact Hvin | repeat split].
Qed.

(** No year is at least NaN. *)
Lemma filter_year_ge_NaN (l : list Z) :
  filter (fun year => AppChart.year_ge year None) l = [].
Proof. induction l as [| y rest IH]; [reflexivity | exact IH]. Qed.

(** Every index of a table divided by every possible sold-year index is
    a valid positive number. *)
Lemma AppChart_ratio_positive_finite (idx : Obj.value) (y : option Z) (v : JS.number) :
  In idx (Obj.objects AppChart.HPI_DATA) -> In v (Obj.values idx) ->
  positive_finite (JS.div v (AppChart.indexOld idx y)) = true.
Proof.
  intros Hin Hv.
  assert (Hall : forallb (fun o =>
                   forallb (fun v => forallb (fun old => positive_finite (JS.div v old))
                                             (JS.of_Z 100 :: Obj.values o))
                           (Obj.values o))
                 (Obj.objects AppChart.HPI_DATA) = true) by (vm_compute; reflexivity).
  rewrite forallb_forall in Hall. specialize (Hall idx Hin).
  rewrite forallb_forall in Hall. specialize (Hall v Hv).
  unfold AppChart.indexOld.
  exact (or_default_check (fun old => positive_finite (JS.div v old)) idx y _ Hall).
Qed.

(** ** Region keys *)

Lemma own_absent {A} (data : list (string * A)) (k : string) :
  ~ In k (map fst data) -> Obj.own data k = None.
Proof.
  induction data as [| [k' v] rest IH]; cbn [Obj.own map fst In]; [reflexivity|].
  intros Hn. destruct (String.eqb_spec k k') as [-> | Hne].
  - contradiction Hn. left. reflexivity.
  - apply IH. intros Hin. apply Hn. right. exact Hin.
Qed.

Lemma region_keys :
  map fst App.HPI_DATA = ["London"; "South East"; "UK Average"]%string /\
  map fst AppChart.HPI_DATA = ["London"; "South East"; "UK Average"]%string.
Proof. split; reflexivity. Qed.

Lemma absent_region_reads_UK_Average (data : list (string * Obj.table)) (k : string) :
  ~ In k (map fst data) -> Obj.inherited k = false ->
  match Obj.get data k with
  | Some o => Some o
  | None => Obj.get data "UK Average"
  end = Obj.get data "UK Average".
Proof.
  intros Hk Hinh. unfold Obj.get at 1. rewrite (own_absent data k Hk), Hinh. reflexivity.
Qed.

(** ** Substrings *)

Lemma prefix_spec (pat s : string) :
  prefix pat s = true <-> exists post, s = (pat ++ post)%string.
Proof.
  revert s. induction pat as [| c pat IH]; intros s.
  - split; [intros _; exists s; reflexivity | intros _; destruct s; reflexivity].
  - destruct s as [| c' s']; simpl; [split; [discriminate | intros [post H]; discriminate]|].
    destruct (Ascii.ascii_dec c c') as [-> | Hne].
    + rewrite IH. split; intros [post H]; exists post; congruence.
    + split; [discriminate | intros [post H]; congruence].
Qed.

(** [includes] is textual containment. *)
Lemma includes_spec (s pat : string) :
  JS.includes s pat = true <-> exists pre post, s = (pre ++ pat ++ post)%string.
Proof.
  induction s as [| c s IH]; cbn [JS.includes].
  - rewrite orb_false_r, prefix_spec. split.
    + intros [post H]. exists EmptyString, post. exact H.
    + intros (pre & post & H). destruct pre; [exists post; exact H|discriminate].
  - rewrite orb_true_iff, prefix_spec, IH. split.
    + intros [[post H] | (pre & post & H)].
      * exists EmptyString, post. exact H.
      * exists (String c pre), post. cbn [String.append]. rewrite H. reflexivity.
    + intros (pre & post & H). destruct pre as [| c' pre].
      * left. exists post. exact H.
      * right. cbn [String.append] in H. injection H as _ H. exists pre, post. exact H.
Qed.

Lemma includes_truthy (s pat : string) :
  JS.includes s pat = true -> pat <> EmptyString -> JS.truthy_string s = true.
Proof.
  destruct s; [| reflexivity]. cbn [JS.includes]. rewrite orb_false_r.
  destruct pat; [congruence | discriminate].
Qed.

Lemma and_includes_Some (s pat : string) :
  pat <> EmptyString -> and_includes (Some s) pat = JS.includes s pat.
Proof.
  intros Hp. cbn [and_includes]. destruct (JS.includes s pat) eqn:Hi.
  - rewrite (includes_truthy s pat Hi Hp). reflexivity.
  - apply andb_false_r.
Qed.

(** The classifier that returns at the first match: an absent label and
    a label with neither name give "UK Average", "London" is tried
    first, "South East" second. *)
Lemma AppChart_classify_first_match :
  AppChart.classify None = "UK Average"%string /\
  forall s,
    (JS.includes s "London" = true -> AppChart.classify (Some s) = "London"%string) /\
    (JS.includes s "London" = false -> JS.includes s "South East" = true ->
       AppChart.classify (Some s) = "South East"%string) /\
    (JS.includes s "London" = false -> JS.includes s "South East" = false ->
       AppChart.classify (Some s) = "UK Average"%string).
Proof.
  split; [reflexivity|]. intros s. unfold AppChart.classify.
  rewrite !and_includes_Some by discriminate.
  repeat split; intros; repeat match goal with H : JS.includes _ _ = _ |- _ => rewrite H; clear H end; reflexivity.
Qed.

(** The classifier that assigns twice: the later test, "South East",
    decides whenever it matches. *)
Lemma App_classify_last_match :
  App.classify None = "UK Average"%string /\
  forall s,
    (JS.includes s "South East" = true -> App.classify (Some s) = "South East"%string) /\
    (JS.includes s "South East" = false -> JS.includes s "London" = true ->
       App.classify (Some s) = "London"%string) /\
    (JS.includes s "London" = false -> JS.includes s "South East" = false ->
       App.classify (Some s) = "UK Average"%string).
Proof.
  split; [reflexivity|]. intros s. unfold App.classify.
  rewrite !and_includes_Some by discriminate.
  repeat split; intros; repeat match goal with H : JS.includes _ _ = _ |- _ => rewrite H; clear H end;
    reflexivity.
Qed.

(** C4.  On a label that contains both names the two classifiers
    differ: [getPostcodeDetails] answers "South East", the last match,
    where [getRegionForPostcode] answers "London", the first. *)
Theorem classify_label_with_both_names :
  JS.includes "South East London" "London" = true /\
  JS.includes "South East London" "South East" = true /\
  App.classify (Some "South East London"%string) = "South East"%string /\
  App.regionKey
    (App.getPostcodeDetails "SE1 7PB" (Status200 (Some "South East London"%string) None "SE1 7PB")) =
    "South East"%string /\
  AppChart.getRegionForPostcode (Status200 (Some "South East London"%string) None "SE1 7PB") =
    "London"%string.
Proof. repeat split; reflexivity. Qed.

(** ** The reads against the lookup of the specification *)

Lemma own_keys {A} (data : list (string * A)) (k : string) (v : A) :
  Obj.own data k = Some v -> In k (map fst data).
Proof.
  induction data as [| [k' v'] rest IH]; cbn [Obj.own map fst In]; [discriminate|].
  destruct (String.eqb_spec k k') as [-> | Hne].
  - intros _. left. reflexivity.
  - intros H. right. apply IH, H.
Qed.

(** A stored number that is neither zero nor NaN is what a read with a
    default yields. *)
Lemma or_default_lookup (t : Obj.table) (y : Z) (d : JS.number) :
  forallb JS.truthy (map snd t) = true ->
  JS.or_default (Obj.lookup t y) d =
  match Obj.lookup t y with Some v => v | None => d end.
Proof.
  intros Ht. destruct (Obj.lookup t y) as [v |] eqn:Hl; cbn [JS.or_default]; [| reflexivity].
  rewrite forallb_forall in Ht. rewrite (Ht v); [reflexivity|].
  apply lookup_In in Hl. change v with (snd (y, v)). apply in_map, Hl.
Qed.

Section Reads.

Variable data : list (string * Obj.table).

Hypothesis data_keys : map fst data = ["London"; "South East"; "UK Average"]%string.

Hypothesis data_tables :
  forall t, In t (map snd data) ->
    forallb JS.truthy (map snd t) = true /\ exists v, Obj.lookup t 2024 = Some v.

Hypothesis data_UK_Average :
  exists t, Obj.own data "UK Average" = Some t /\
            Obj.lookup t 2024 = Some (JS.decimal 1432 1).

Lemma own_not_inherited (k : string) (t : Obj.table) :
  Obj.own data k = Some t -> Obj.inherited k = false.
Proof.
  intros Hown. apply own_keys in Hown. rewrite data_keys in Hown.
  cbn [In] in Hown. destruct Hown as [<- | [<- | [<- | []]]]; reflexivity.
Qed.

Lemma table_reads_refine (k : string) (t : Obj.table) :
  In t (map snd data) -> Spec.regionTable data k = t ->
  JS.or_default (Obj.get_year (Obj.Table t) (Some 2024)) (JS.decimal 1432 1) =
    Spec.indexFor data k 2024 /\
  forall y, JS.or_default (Obj.get_year (Obj.Table t) (Some y)) (JS.of_Z 100) =
            Spec.indexFor data k y.
Proof.
  intros Hin Ht. destruct (data_tables t Hin) as [Htruthy [v Hv]].
  unfold Spec.indexFor. rewrite Ht. cbn [Obj.get_year]. split.
  - rewrite (or_default_lookup t 2024 _ Htruthy), Hv. reflexivity.
  - intros y. apply or_default_lookup, Htruthy.
Qed.

(** The two reads of [calculateValuation] against [Spec.indexFor]: the
    current-year read agrees for every key; the sold-year read agrees
    unless the key is a name every object inherits, where it is the
    default 100. *)
Lemma reads_refine (k : string) :
  exists idx,
    match Obj.get data k with
    | Some o => Some o
    | None => Obj.get data "UK Average"
    end = Some idx /\
    In idx (Obj.objects data) /\
    JS.or_default (Obj.get_year idx (Some 2024)) (JS.decimal 1432 1) =
      Spec.indexFor data k 2024 /\
    forall y,
      JS.or_default (Obj.get_year idx y) (JS.of_Z 100) =
      match y with
      | Some y => if Obj.inherited k then JS.of_Z 100 else Spec.indexFor data k y
      | None => JS.of_Z 100
      end.
Proof.
  destruct data_UK_Average as (uk & Huk & Huk2024).
  destruct (Obj.own data k) as [t |] eqn:Hown.
  - pose proof (own_not_inherited k t Hown) as Hinh.
    assert (Hin : In t (map snd data)) by (eapply own_In, Hown).
    assert (Ht : Spec.regionTable data k = t) by (unfold Spec.regionTable; rewrite Hown; reflexivity).
    destruct (table_reads_refine k t Hin Ht) as [Hnew Hold].
    exists (Obj.Table t). unfold Obj.get at 1. rewrite Hown.
    split; [reflexivity|]. split; [right; apply in_map, Hin|]. split; [exact Hnew|].
    intros [y |]; [rewrite Hinh; apply Hold | reflexivity].
  - assert (Ht : Spec.regionTable data k = uk)
      by (unfold Spec.regionTable; rewrite Hown, Huk; reflexivity).
    destruct (Obj.inherited k) eqn:Hinh.
    + exists Obj.Inherited. unfold Obj.get at 1. rewrite Hown, Hinh.
      split; [reflexivity|]. split; [left; reflexivity|]. split.
      * unfold Spec.indexFor. rewrite Ht, Huk2024. reflexivity.
      * intros [y |]; reflexivity.
    + assert (Hin : In uk (map snd data)) by (eapply own_In, Huk).
      destruct (table_reads_refine k uk Hin Ht) as [Hnew Hold].
      exists (Obj.Table uk). unfold Obj.get. rewrite Hown, Hinh, Huk.
      split; [reflexivity|]. split; [right; apply in_map, Hin|]. split; [exact Hnew|].
      intros [y |]; [apply Hold | reflexivity].
Qed.

End Reads.

Lemma tables_checked (t : Obj.table) :
  In t (map snd App.HPI_DATA) \/ In t (map snd AppChart.HPI_DATA) ->
  forallb JS.truthy (map snd t) = true /\ exists v, Obj.lookup t 2024 = Some v.
Proof.
  assert (Hall : forallb (fun t => forallb JS.truthy (map snd t) &&
                                   match Obj.lookup t 2024 with Some _ => true | None => false end)
                   (map snd App.HPI_DATA ++ map snd AppChart.HPI_DATA) = true)
    by (vm_compute; reflexivity).
  rewrite forallb_forall in Hall. intros Hin.
  specialize (Hall t (in_or_app _ _ _ Hin)). apply andb_true_iff in Hall as [Ht Hy].
  split; [exact Ht|]. destruct (Obj.lookup t 2024) as [v |]; [exists v; reflexivity | discriminate].
Qed.

Lemma App_reads_refine (k : string) :
  exists idx,
    App.indexData k = Some idx /\
    In idx (Obj.objects App.HPI_DATA) /\
    App.indexNew idx = Spec.indexFor App.HPI_DATA k App.currentYear /\
    forall y,
      App.indexOld idx y =
      match y with
      | Some y => if Obj.inherited k then JS.of_Z 100 else Spec.indexFor App.HPI_DATA k y
      | None => JS.of_Z 100
      end.
Proof.
  apply (reads_refine App.HPI_DATA).
  - reflexivity.
  - intros t Ht. apply tables_checked. left. exact Ht.
  - eexists. split; reflexivity.
Qed.

Lemma AppChart_reads_refine (k : string) :
  exists idx,
    AppChart.indexData k = Some idx /\
    In idx (Obj.objects AppChart.HPI_DATA) /\
    AppChart.indexNew idx = Spec.indexFor AppChart.HPI_DATA k AppChart.currentYear /\
    forall y,
      AppChart.indexOld idx y =
      match y with
      | Some y => if Obj.inherited k then JS.of_Z 100 else Spec.indexFor AppChart.HPI_DATA k y
      | None => JS.of_Z 100
      end.
Proof.
  apply (reads_refine AppChart.HPI_DATA).
  - reflexivity.
  - intros t Ht. apply tables_checked. right. exact Ht.
  - eexists. split; reflexivity.
Qed.

(** The year of the epoch lies before every year of the tables: the read
    of that year falls back to 100 and no year is filtered out. *)
Lemma AppChart_epoch_reads (idx : Obj.value) (behindUTC : bool) :
  In idx (Obj.objects AppChart.HPI_DATA) ->
  AppChart.indexOld idx (Some (JS.epochYear behindUTC)) = JS.of_Z 100 /\
  filter (fun year => AppChart.year_ge year (Some (JS.epochYear behindUTC))) (Obj.keys idx) =
    Obj.keys idx.
Proof.
  intros Hin. cbv [Obj.objects AppChart.HPI_DATA map snd In] in Hin.
  repeat (destruct Hin as [<- | Hin];
          [destruct behindUTC; split; vm_compute; reflexivity|]).
  destruct Hin.
Qed.

(** ** The valuation *)

Section Claims.

Variable Date_getFullYear : string -> option Z.
Variable Date_behindUTC : bool.


(** C2.  For a record whose last sold price is 0, whatever the region and
    the date, the valuation returns an estimate of 0, which the page
    shows as unavailable; the growth factor is still the quotient of the
    two index reads, and both bounds are 0. *)
Theorem valuate_unavailable_without_price (p : Property) (k : string) :
  lastSoldPrice p = 0%N ->
  exists idx r,
    App.indexData k = Some idx /\
    App.calculateValuation Date_getFullYear p k = JS.Normal r /\
    App.estimatedValue r = JS.of_Z 0 /\
    App.unavailable r = true /\
    App.growthFactor r =
      JS.div (App.indexNew idx) (App.indexOld idx (App.soldYear Date_getFullYear p)) /\
    App.lowerBound r = JS.of_Z 0 /\
    App.upperBound r = JS.of_Z 0.
Proof.
  intros Hp. destruct (App_indexData_total k) as (idx & Hidx & _).
  exists idx. eexists. split; [exact Hidx|].
  unfold App.calculateValuation. rewrite Hidx, (price_zero p Hp).
  split; [reflexivity|].
  unfold App.unavailable. cbn [App.estimatedValue App.growthFactor App.lowerBound App.upperBound].
  repeat split; reflexivity.
Qed.


(** C5, as the code has it.  For a record whose last sold date is
    absent, the member missing or [null], the sold-year index is 100 and
    the growth factor is [indexFor (region, currentYear)] divided by
    100.  The current version gets there with the sold year 2015, the
    year every table gives the index 100.  The chart version has no
    default: for a missing member its sold year is NaN and the series is
    empty; for [null] its sold year is the year of the epoch, 1969 or
    1970, and the series holds every year of the index object; either
    way the read falls back to 100. *)
Theorem absent_date_growth (p : Property) (k : string) :
  lastSoldDate p = Missing \/ lastSoldDate p = Null ->
  (App.soldYear Date_getFullYear p = Some 2015 /\
   (forall t, In t (map snd App.HPI_DATA) -> Obj.lookup t 2015 = Some (JS.of_Z 100)) /\
   exists idx r,
     App.indexData k = Some idx /\
     App.indexOld idx (App.soldYear Date_getFullYear p) = JS.of_Z 100 /\
     App.calculateValuation Date_getFullYear p k = JS.Normal r /\
     App.growthFactor r =
       JS.div (Spec.indexFor App.HPI_DATA k App.currentYear) (JS.of_Z 100)) /\
  (exists idx r,
     AppChart.indexData k = Some idx /\
     AppChart.indexOld idx (AppChart.soldYear Date_getFullYear Date_behindUTC p) =
       JS.of_Z 100 /\
     AppChart.calculateValuation Date_getFullYear Date_behindUTC p k = JS.Normal r /\
     AppChart.growthFactor r =
       JS.div (Spec.indexFor AppChart.HPI_DATA k AppChart.currentYear) (JS.of_Z 100) /\
     (lastSoldDate p = Missing ->
        AppChart.soldYear Date_getFullYear Date_behindUTC p = None /\
        AppChart.chartData r = []) /\
     (lastSoldDate p = Null ->
        (AppChart.soldYear Date_getFullYear Date_behindUTC p = Some 1969 \/
         AppChart.soldYear Date_getFullYear Date_behindUTC p = Some 1970) /\
        map AppChart.year (AppChart.chartData r) = Obj.keys idx)).
Proof.
  intros Hd. split.
  - assert (Hyear : App.soldYear Date_getFullYear p = Some 2015).
    { unfold App.soldYear. destruct Hd as [-> | ->]; reflexivity. }
    assert (Hbase : forall o, In o (Obj.objects App.HPI_DATA) ->
                              App.indexOld o (Some 2015) = JS.of_Z 100).
    { intros o Ho. cbv [Obj.objects App.HPI_DATA map snd In] in Ho.
      repeat (destruct Ho as [<- | Ho]; [vm_compute; reflexivity|]). destruct Ho. }
    split; [exact Hyear|]. split.
    + intros t Ht. cbv [App.HPI_DATA map snd In] in Ht.
      repeat (destruct Ht as [<- | Ht]; [vm_compute; reflexivity|]). destruct Ht.
    + destruct (App_reads_refine k) as (idx & Hidx & Hin & Hnew & _).
      exists idx. eexists. split; [exact Hidx|]. rewrite Hyear.
      split; [apply Hbase, Hin|].
      unfold App.calculateValuation. rewrite Hidx. split; [reflexivity|].
      cbn [App.growthFactor]. rewrite Hyear, (Hbase idx Hin), Hnew. reflexivity.
  - destruct (AppChart_reads_refine k) as (idx & Hidx & Hin & Hnew & _).
    destruct (AppChart_epoch_reads idx Date_behindUTC Hin) as [Hepoch Hall].
    assert (Hold : AppChart.indexOld idx (AppChart.soldYear Date_getFullYear Date_behindUTC p) =
                   JS.of_Z 100).
    { unfold AppChart.soldYear. destruct Hd as [-> | ->]; [| exact Hepoch].
      unfold AppChart.indexOld. destruct idx; reflexivity. }
    exists idx. eexists. split; [exact Hidx|]. split; [exact Hold|].
    unfold AppChart.calculateValuation. rewrite Hidx. split; [reflexivity|].
    cbn [AppChart.growthFactor AppChart.chartData].
    split; [rewrite Hold, Hnew; reflexivity|]. split.
    + intros Hm. unfold AppChart.soldYear. rewrite Hm. split; [reflexivity|].
      rewrite filter_year_ge_NaN. reflexivity.
    + intros Hn. unfold AppChart.soldYear. rewrite Hn. split.
      * destruct Date_behindUTC; [left | right]; reflexivity.
      * rewrite map_year_chartPoint. exact Hall.
Qed.

(** C10.  The growth factor of every valuation is strictly positive. *)
Theorem growth_factor_positive (p : Property) (k : string) :
  (exists r, App.calculateValuation Date_getFullYear p k = JS.Normal r /\
             JS.gt (App.growthFactor r) (JS.of_Z 0) = true) /\
  (exists r, AppChart.calculateValuation Date_getFullYear Date_behindUTC p k = JS.Normal r /\
             JS.gt (AppChart.growthFactor r) (JS.of_Z 0) = true).
Proof.
  split.
  - destruct (App_indexData_total k) as (idx & Hidx & Hin).
    eexists. unfold App.calculateValuation. rewrite Hidx. split; [reflexivity|].
    cbn [App.growthFactor]. apply positive_finite_gt, App_growth_positive_finite, Hin.
  - destruct (AppChart_indexData_total k) as (idx & Hidx & Hin).
    eexists. unfold AppChart.calculateValuation. rewrite Hidx. split; [reflexivity|].
    cbn [AppChart.growthFactor]. apply positive_finite_gt, AppChart_growth_positive_finite, Hin.
Qed.

(** C6.  Both bounds are [Math.round] of the estimate scaled by 0.95 and
    by 1.05, and they bracket every estimate that is greater than 0. *)
Theorem bounds_bracket_estimate (p : Property) (k : string) :
  (exists r,
      App.calculateValuation Date_getFullYear p k = JS.Normal r /\
      App.lowerBound r = JS.Math_round (JS.mul (JS.decimal 95 2) (App.estimatedValue r)) /\
      App.upperBound r = JS.Math_round (JS.mul (JS.decimal 105 2) (App.estimatedValue r)) /\
      (JS.gt (App.estimatedValue r) (JS.of_Z 0) = true ->
         JS.ge (App.upperBound r) (App.estimatedValue r) = true /\
         JS.ge (App.estimatedValue r) (App.lowerBound r) = true)) /\
  (exists r,
      AppChart.calculateValuation Date_getFullYear Date_behindUTC p k = JS.Normal r /\
      AppChart.lowerBound r =
        JS.Math_round (JS.mul (JS.decimal 95 2) (AppChart.estimatedValue r)) /\
      AppChart.upperBound r =
        JS.Math_round (JS.mul (JS.decimal 105 2) (AppChart.estimatedValue r)) /\
      (JS.gt (AppChart.estimatedValue r) (JS.of_Z 0) = true ->
         JS.ge (AppChart.upperBound r) (AppChart.estimatedValue r) = true /\
         JS.ge (AppChart.estimatedValue r) (AppChart.lowerBound r) = true)).
Proof.
  destruct factor_95 as [H95 V95]. destruct factor_105 as [H105 V105].
  split.
  - destruct (App_indexData_total k) as (idx & Hidx & Hin).
    eexists. unfold App.calculateValuation. rewrite Hidx. split; [reflexivity|].
    cbn [App.lowerBound App.upperBound App.estimatedValue].
    set (gf := JS.div (App.indexNew idx) (App.indexOld idx (App.soldYear Date_getFullYear p))).
    assert (Hgf : positive_finite gf = true) by (apply App_growth_positive_finite, Hin).
    set (est := if JS.gt (price p) (JS.of_Z 0)
                then JS.Math_round (JS.mul (price p) gf) else JS.of_Z 0).
    assert (Hest : nonneg est = true /\ integral est).
    { unfold est. destruct (JS.gt (price p) (JS.of_Z 0)).
      - apply estimate_whole; [apply price_nonneg | exact Hgf].
      - apply zero_whole. }
    destruct Hest as [Hnn Hint].
    split; [rewrite mul_comm; reflexivity|]. split; [rewrite mul_comm; reflexivity|].
    intros Hgt. rewrite of_Z_zero in Hgt.
    destruct (round_band est _ _ Hnn Hint H95 V95 H105 V105 Hgt) as [Hlo Hhi].
    split; assumption.
  - destruct (AppChart_indexData_total k) as (idx & Hidx & Hin).
    eexists. unfold AppChart.calculateValuation. rewrite Hidx. split; [reflexivity|].
    cbn [AppChart.lowerBound AppChart.upperBound AppChart.estimatedValue].
    set (gf := JS.div (AppChart.indexNew idx)
                      (AppChart.indexOld idx (AppChart.soldYear Date_getFullYear Date_behindUTC p))).
    assert (Hgf : positive_finite gf = true) by (apply AppChart_growth_positive_finite, Hin).
    destruct (estimate_whole (price p) gf (price_nonneg p) Hgf) as [Hnn Hint].
    split; [rewrite mul_comm; reflexivity|]. split; [rewrite mul_comm; reflexivity|].
    intros Hgt. rewrite of_Z_zero in Hgt.
    destruct (round_band _ _ _ Hnn Hint H95 V95 H105 V105 Hgt) as [Hlo Hhi].
    split; assumption.
Qed.

(** Where the substitution of line 46 works.  A region key that is
    neither a key of the table nor the name of a member every object
    inherits is valued with the table of "UK Average": the result is the
    result for the region "UK Average" (up to the region key the chart
    version echoes). *)
Theorem unknown_region_uses_UK_Average (p : Property) (k : string) :
  ~ In k (map fst App.HPI_DATA) ->
  Obj.inherited k = false ->
  (App.indexData k = Obj.get App.HPI_DATA "UK Average" /\
   App.calculateValuation Date_getFullYear p k =
     App.calculateValuation Date_getFullYear p "UK Average") /\
  (AppChart.indexData k = Obj.get AppChart.HPI_DATA "UK Average" /\
   exists r r',
     AppChart.calculateValuation Date_getFullYear Date_behindUTC p k = JS.Normal r /\
     AppChart.calculateValuation Date_getFullYear Date_behindUTC p "UK Average" = JS.Normal r' /\
     AppChart.estimatedValue r = AppChart.estimatedValue r' /\
     AppChart.lowerBound r = AppChart.lowerBound r' /\
     AppChart.upperBound r = AppChart.upperBound r' /\
     AppChart.growthFactor r = AppChart.growthFactor r' /\
     AppChart.chartData r = AppChart.chartData r').
Proof.
  intros Hk Hinh.
  assert (Hk' : ~ In k (map fst AppChart.HPI_DATA)).
  { destruct region_keys as [Ha Hb]. rewrite Hb, <- Ha. exact Hk. }
  pose proof (absent_region_reads_UK_Average App.HPI_DATA k Hk Hinh) as HA.
  pose proof (absent_region_reads_UK_Average AppChart.HPI_DATA k Hk' Hinh) as HB.
  assert (HukA : App.indexData "UK Average" = Obj.get App.HPI_DATA "UK Average") by reflexivity.
  assert (HukB : AppChart.indexData "UK Average" = Obj.get AppChart.HPI_DATA "UK Average")
    by reflexivity.
  split.
  - split; [exact HA|]. unfold App.calculateValuation.
    rewrite HukA. unfold App.indexData. rewrite HA. reflexivity.
  - split; [exact HB|].
    destruct (AppChart_indexData_total "UK Average") as (idx & Hidx & _).
    unfold AppChart.calculateValuation.
    assert (Hidxk : AppChart.indexData k = Some idx).
    { unfold AppChart.indexData at 1. rewrite HB, <- HukB. exact Hidx. }
    rewrite Hidxk, Hidx. do 2 eexists. repeat split; reflexivity.
Qed.

(** C8, as the code has it.  The chart version always builds the series:
    one point for every year of the index object from the sold year on,
    in ascending order, holding the stored index and
    [Math.round (lastSoldPrice * (index / indexOld))].  It is empty when
    the sold year is NaN, and all its values are 0 when the price is 0. *)
Theorem chart_series (p : Property) (k : string) :
  exists idx r,
    AppChart.indexData k = Some idx /\
    AppChart.calculateValuation Date_getFullYear Date_behindUTC p k = JS.Normal r /\
    StronglySorted Z.lt (map AppChart.year (AppChart.chartData r)) /\
    (forall y, In y (map AppChart.year (AppChart.chartData r)) <->
               In y (Obj.keys idx) /\
               AppChart.year_ge y (AppChart.soldYear Date_getFullYear Date_behindUTC p) = true) /\
    (forall pt, In pt (AppChart.chartData r) ->
       exists v,
         Obj.get_year idx (Some (AppChart.year pt)) = Some v /\
         AppChart.index pt = Some v /\
         AppChart.value pt =
           JS.Math_round
             (JS.mul (price p)
                (JS.div v (AppChart.indexOld idx (AppChart.soldYear Date_getFullYear Date_behindUTC p))))) /\
    (AppChart.soldYear Date_getFullYear Date_behindUTC p = None -> AppChart.chartData r = []) /\
    (lastSoldPrice p = 0%N ->
       forall pt, In pt (AppChart.chartData r) -> AppChart.value pt = JS.of_Z 0).
Proof.
  destruct (AppChart_indexData_total k) as (idx & Hidx & Hin).
  exists idx. eexists. split; [exact Hidx|].
  unfold AppChart.calculateValuation. rewrite Hidx. split; [reflexivity|].
  cbn [AppChart.chartData].
  set (sy := AppChart.soldYear Date_getFullYear Date_behindUTC p).
  set (old := AppChart.indexOld idx sy).
  set (l := filter (fun year => AppChart.year_ge year sy) (Obj.keys idx)).
  assert (Hpt := chart_points p idx old sy). fold l in Hpt.
  rewrite map_year_chartPoint.
  split; [| split; [| split; [| split]]].
  - apply StronglySorted_filter, ascending_StronglySorted, keys_ascending. right. exact Hin.
  - intros y. unfold l. apply filter_In.
  - intros pt Hin_pt. destruct (Hpt pt Hin_pt) as (v & _ & H1 & H2 & H3).
    exists v. repeat split; assumption.
  - intros Hnone. unfold l. rewrite Hnone, filter_year_ge_NaN. reflexivity.
  - intros Hp0 pt Hin_pt. destruct (Hpt pt Hin_pt) as (v & Hv & _ & _ & ->).
    rewrite (price_zero p Hp0), mul_zero_positive; [reflexivity|].
    apply AppChart_ratio_positive_finite; assumption.
Qed.

(** C9.  For every record and every region key the valuation returns
    and does not throw, and every number of the result is defined: none
    is NaN, and every chart point holds an index. *)
Theorem valuate_total (p : Property) (k : string) :
  (exists r,
      App.calculateValuation Date_getFullYear p k = JS.Normal r /\
      JS.is_nan (App.estimatedValue r) = false /\
      JS.is_nan (App.lowerBound r) = false /\
      JS.is_nan (App.upperBound r) = false /\
      JS.is_nan (App.growthFactor r) = false) /\
  (exists r,
      AppChart.calculateValuation Date_getFullYear Date_behindUTC p k = JS.Normal r /\
      JS.is_nan (AppChart.estimatedValue r) = false /\
      JS.is_nan (AppChart.lowerBound r) = false /\
      JS.is_nan (AppChart.upperBound r) = false /\
      JS.is_nan (AppChart.growthFactor r) = false /\
      forall pt, In pt (AppChart.chartData r) ->
        AppChart.index pt <> None /\ JS.is_nan (AppChart.value pt) = false).
Proof.
  destruct factor_95 as [H95 _]. destruct factor_105 as [H105 _].
  split.
  - destruct (App_indexData_total k) as (idx & Hidx & Hin).
    eexists. unfold App.calculateValuation. rewrite Hidx. split; [reflexivity|].
    cbn [App.lowerBound App.upperBound App.estimatedValue App.growthFactor].
    set (gf := JS.div (App.indexNew idx) (App.indexOld idx (App.soldYear Date_getFullYear p))).
    assert (Hgf : positive_finite gf = true) by (apply App_growth_positive_finite, Hin).
    set (est := if JS.gt (price p) (JS.of_Z 0)
                then JS.Math_round (JS.mul (price p) gf) else JS.of_Z 0).
    assert (Hnn : nonneg est = true).
    { unfold est. destruct (JS.gt (price p) (JS.of_Z 0)).
      - apply estimate_whole; [apply price_nonneg | exact Hgf].
      - reflexivity. }
    repeat split; apply nonneg_not_nan;
      [exact Hnn | apply bound_nonneg; assumption | apply bound_nonneg; assumption
      | apply positive_finite_nonneg, Hgf].
  - destruct (AppChart_indexData_total k) as (idx & Hidx & Hin).
    eexists. unfold AppChart.calculateValuation. rewrite Hidx. split; [reflexivity|].
    cbn [AppChart.lowerBound AppChart.upperBound AppChart.estimatedValue AppChart.growthFactor
         AppChart.chartData].
    set (sy := AppChart.soldYear Date_getFullYear Date_behindUTC p).
    set (gf := JS.div (AppChart.indexNew idx) (AppChart.indexOld idx sy)).
    assert (Hgf : positive_finite gf = true) by (apply AppChart_growth_positive_finite, Hin).
    destruct (estimate_whole (price p) gf (price_nonneg p) Hgf) as [Hnn _].
    split; [apply nonneg_not_nan, Hnn|].
    split; [apply nonneg_not_nan, bound_nonneg; assumption|].
    split; [apply nonneg_not_nan, bound_nonneg; assumption|].
    split; [apply nonneg_not_nan, positive_finite_nonneg, Hgf|].
    intros pt Hpt. destruct (chart_points p idx _ sy pt Hpt) as (v & Hvin & _ & Hi & Hval).
    split; [rewrite Hi; discriminate|]. rewrite Hval.
    apply nonneg_not_nan, estimate_whole; [apply price_nonneg|].
    apply AppChart_ratio_positive_finite; assumption.
Qed.

End Claims.

(** ** The claims at concrete records *)


(** C2 at a record of the EPC register. *)
Lemma valuate_unavailable_without_price_witness :
  lastSoldPrice epcOnly = 0%N /\
  exists r,
    App.calculateValuation isoYear epcOnly "South East" = JS.Normal r /\
    App.estimatedValue r = JS.of_Z 0 /\ App.unavailable r = true /\
    App.lowerBound r = JS.of_Z 0 /\ App.upperBound r = JS.of_Z 0.
Proof.
  assert (Hp : lastSoldPrice epcOnly = 0%N) by reflexivity.
  split; [exact Hp|].
  destruct (valuate_unavailable_without_price isoYear epcOnly "South East" Hp)
    as (idx & r & _ & Hr & Hest & Hun & _ & Hlo & Hhi).
  exists r. repeat split; assumption.
Defined.



(** C5: the specification has the sold year of a record without a date
    equal to the base year.  In the chart version it is NaN for a record
    without the member, and the series, which would start in 2015, is
    empty; for a record whose date is [null] it is 1970 (east of
    Greenwich) and the series starts in 2000. *)
Lemma chart_version_has_no_default_year :
  (lastSoldDate undated = Missing /\
   AppChart.soldYear isoYear false undated = None /\
   AppChart.soldYear isoYear false undated <> Some 2015 /\
   exists r,
     AppChart.calculateValuation isoYear false undated "London" = JS.Normal r /\
     AppChart.chartData r = []) /\
  (lastSoldDate nullDate = Null /\
   AppChart.soldYear isoYear false nullDate = Some 1970 /\
   AppChart.soldYear isoYear false nullDate <> Some 2015 /\
   exists r,
     AppChart.calculateValuation isoYear false nullDate "London" = JS.Normal r /\
     map AppChart.year (AppChart.chartData r) = map Z.of_nat (seq 2000 25)).
Proof.
  split.
  - repeat split; try discriminate.
    eexists. split; [vm_compute; reflexivity | reflexivity].
  - repeat split; try discriminate.
    eexists. split; [vm_compute; reflexivity | vm_compute; reflexivity].
Qed.

(** C5 at a record whose date is [null], west of Greenwich: the sold
    year of the chart version is 1969 and the series holds the 25 years
    of the table. *)
Lemma absent_date_growth_witness :
  (lastSoldDate nullDate = Missing \/ lastSoldDate nullDate = Null) /\
  App.soldYear isoYear nullDate = Some 2015 /\
  (exists r,
     App.calculateValuation isoYear nullDate "London" = JS.Normal r /\
     App.growthFactor r =
       JS.div (Spec.indexFor App.HPI_DATA "London" App.currentYear) (JS.of_Z 100)) /\
  (exists idx r,
     AppChart.indexData "London" = Some idx /\
     AppChart.calculateValuation isoYear true nullDate "London" = JS.Normal r /\
     AppChart.growthFactor r =
       JS.div (Spec.indexFor AppChart.HPI_DATA "London" AppChart.currentYear) (JS.of_Z 100) /\
     AppChart.soldYear isoYear true nullDate = Some 1969 /\
     map AppChart.year (AppChart.chartData r) = Obj.keys idx).
Proof.
  assert (Hn : lastSoldDate nullDate = Null) by reflexivity.
  assert (Hd : lastSoldDate nullDate = Missing \/ lastSoldDate nullDate = Null)
    by (right; exact Hn).
  split; [exact Hd|].
  destruct (absent_date_growth isoYear true nullDate "London" Hd)
    as [(Hy & _ & idx & r & _ & _ & Hr & Hgf)
        (idx' & r' & Hidx' & _ & Hr' & Hgf' & _ & Hnull)].
  split; [exact Hy|]. split.
  - exists r. split; assumption.
  - exists idx', r'. destruct (Hnull Hn) as [_ Hkeys].
    repeat split; assumption.
Defined.

(** C6 at 10 Downing Street: 5,578,875 <= 5,872,500 <= 6,166,125. *)
Lemma bounds_bracket_estimate_witness :
  exists r,
    App.calculateValuation isoYear downing10 "London" = JS.Normal r /\
    App.estimatedValue r = JS.of_Z 5872500 /\
    App.lowerBound r = JS.of_Z 5578875 /\
    App.upperBound r = JS.of_Z 6166125 /\
    JS.gt (App.estimatedValue r) (JS.of_Z 0) = true /\
    JS.ge (App.upperBound r) (App.estimatedValue r) = true /\
    JS.ge (App.estimatedValue r) (App.lowerBound r) = true.
Proof.
  destruct (bounds_bracket_estimate isoYear false downing10 "London")
    as [(r & Hr & _ & _ & Hband) _].
  exists r. split; [exact Hr|].
  assert (Heq : JS.Normal r =
                JS.Normal {| App.estimatedValue := JS.of_Z 5872500;
                             App.lowerBound := JS.of_Z 5578875;
                             App.upperBound := JS.of_Z 6166125;
                             App.growthFactor := JS.div (JS.decimal 1305 1) (JS.of_Z 100) |}).
  { rewrite <- Hr. vm_compute. reflexivity. }
  assert (Hgt : JS.gt (App.estimatedValue r) (JS.of_Z 0) = true).
  { injection Heq as ->. reflexivity. }
  destruct (Hband Hgt) as [Hhi Hlo].
  injection Heq as Hrec. rewrite Hrec in *.
  repeat split; try reflexivity; assumption.
Defined.


Lemma unknown_region_uses_UK_Average_witness :
  ~ In "Wales"%string (map fst App.HPI_DATA) /\
  Obj.inherited "Wales" = false /\
  App.calculateValuation isoYear sold2010 "Wales" =
  App.calculateValuation isoYear sold2010 "UK Average".
Proof.
  assert (Hk : ~ In "Wales"%string (map fst App.HPI_DATA)).
  { cbn. intros [H | [H | [H | []]]]; discriminate. }
  assert (Hinh : Obj.inherited "Wales" = false) by reflexivity.
  split; [exact Hk|]. split; [exact Hinh|].
  exact (proj2 (proj1 (unknown_region_uses_UK_Average isoYear false sold2010 "Wales" Hk Hinh))).
Defined.

(** C8: the claim fails twice.  A record without a price still gets a
    series, and for a price of 375 sold in 2015 the point of 2019 is
    430, where [Math.round (375 * 114.8 / 100)] is 431. *)
Lemma chart_series_differs :
  (lastSoldPrice unpriced2020 = 0%N /\
   exists r,
     AppChart.calculateValuation isoYear false unpriced2020 "London" = JS.Normal r /\
     map AppChart.year (AppChart.chartData r) = [2020; 2021; 2022; 2023; 2024]) /\
  (exists r pt v idx,
     AppChart.indexData "London" = Some idx /\
     AppChart.calculateValuation isoYear false garage2015 "London" = JS.Normal r /\
     In pt (AppChart.chartData r) /\
     AppChart.year pt = 2019 /\ AppChart.index pt = Some v /\
     AppChart.value pt = JS.of_Z 430 /\
     JS.Math_round
       (JS.div (JS.mul (price garage2015) v)
               (AppChart.indexOld idx (AppChart.soldYear isoYear false garage2015))) =
     JS.of_Z 431).
Proof.
  split.
  - split; [reflexivity|]. eexists. split; [vm_compute; reflexivity|]. vm_compute. reflexivity.
  - eexists. 
    exists {| AppChart.year := 2019; AppChart.index := Some (JS.decimal 1148 1);
              AppChart.value := JS.of_Z 430 |}.
    exists (JS.decimal 1148 1). eexists.
    split; [vm_compute; reflexivity|].
    split; [vm_compute; reflexivity|].
    split; [vm_compute; do 4 right; left; reflexivity|].
    repeat split; vm_compute; reflexivity.
Qed.

(** C8 at a record without a price, sold in 2020. *)
Lemma chart_series_witness :
  lastSoldPrice unpriced2020 = 0%N /\
  exists r,
    AppChart.calculateValuation isoYear false unpriced2020 "London" = JS.Normal r /\
    StronglySorted Z.lt (map AppChart.year (AppChart.chartData r)) /\
    forall pt, In pt (AppChart.chartData r) -> AppChart.value pt = JS.of_Z 0.
Proof.
  assert (Hp : lastSoldPrice unpriced2020 = 0%N) by reflexivity.
  split; [exact Hp|].
  destruct (chart_series isoYear false unpriced2020 "London")
    as (idx & r & _ & Hr & Hsorted & _ & _ & _ & Hzero).
  exists r. split; [exact Hr|]. split; [exact Hsorted | exact (Hzero Hp)].
Defined.

(** * Further properties *)

(** ** Whole numbers *)

(** A valid number is determined by its value. *)
Lemma valid_eq (ma mb : positive) (ea eb : Z) :
  canonical_mantissa JS.prec JS.emax ma ea = true ->
  canonical_mantissa JS.prec JS.emax mb eb = true ->
  dyadic (Zpos ma) ea = dyadic (Zpos mb) eb ->
  S754_finite false ma ea = S754_finite false mb eb.
Proof.
  intros Ha Hb Hv.
  destruct (Z.lt_trichotomy ea eb) as [Hlt | [Heq | Hgt]].
  - pose proof (dyadic_lt_exponent ma mb ea eb Ha Hb Hlt). lia.
  - subst eb. pose proof (canonical_inv _ _ Ha) as (He & _).
    unfold dyadic in Hv. apply Z.mul_reg_r in Hv.
    + injection Hv as ->. reflexivity.
    + pose proof (pow2_pos (ea + 3000)). lia.
  - pose proof (dyadic_lt_exponent mb ma eb ea Hb Ha ltac:(lia)). lia.
Qed.

(** The number of an integer that a valid number holds is that number. *)
Lemma of_Z_exact (m : positive) (e k : Z) :
  bounded JS.prec JS.emax m e = true ->
  dyadic (Zpos m) e = k * 2 ^ 3000 ->
  JS.of_Z k = S754_finite false m e.
Proof.
  intros Hb Hk. pose proof (bounded_inv _ _ Hb) as (He & _).
  pose proof (dyadic_pos m e ltac:(lia)) as Hpos.
  assert (H3000 : 0 < 2 ^ 3000) by (apply pow2_pos; lia).
  destruct k as [| n | n]; [lia | | nia].
  destruct (of_Z_pos_spec n) as (_ & _ & _ & Hs).
  destruct (Hs m e Hb) as [Hup Hdown].
  destruct (Hup ltac:(lia)) as [Hpf Hle].
  destruct (Hdown ltac:(lia)) as [Hinf | Hge]; [rewrite Hinf in Hpf; discriminate|].
  apply positive_finite_inv in Hpf as (m' & e' & Heq & Hb').
  rewrite Heq in *. cbn [value] in Hle, Hge.
  apply valid_eq; [apply bounded_canonical, Hb' | apply bounded_canonical, Hb | lia].
Qed.

(** A non-negative whole number is [Infinity] or the number of a
    non-negative integer. *)
Lemma whole_number (x : JS.number) :
  nonneg x = true -> integral x ->
  x = S754_infinity false \/ exists n, 0 <= n /\ x = JS.of_Z n.
Proof.
  intros Hx [k Hk].
  destruct x as [[|] | [|] | | [|] m e]; try discriminate.
  - right. exists 0. split; [lia | reflexivity].
  - left. reflexivity.
  - right. cbn [nonneg value] in *. pose proof (bounded_inv _ _ Hx) as (He & _).
    pose proof (dyadic_pos m e ltac:(lia)). assert (0 < 2 ^ 3000) by (apply pow2_pos; lia).
    exists k. split; [nia|]. symmetry. apply of_Z_exact; assumption.
Qed.

(** [Math.round] leaves a whole number as it is. *)
Lemma Math_round_whole (x : JS.number) :
  nonneg x = true -> integral x -> JS.Math_round x = x.
Proof.
  intros Hx [k Hk].
  destruct x as [[|] | [|] | | [|] m e]; try discriminate; try reflexivity.
  cbn [nonneg value] in *. unfold JS.Math_round.
  pose proof (bounded_inv _ _ Hx) as (He & _).
  destruct (Z.leb_spec 0 e) as [Hpos | Hneg]; [reflexivity|].
  assert (Hp : 0 < 2 ^ (- e)) by (apply pow2_pos; lia).
  assert (Hpe : 0 < 2 ^ (e + 3000)) by (apply pow2_pos; lia).
  assert (Hp1 : 2 ^ (1 - e) = 2 * 2 ^ (- e)).
  { replace (1 - e) with (1 + - e) by lia. rewrite pow2_add by lia. reflexivity. }
  assert (Hp3 : 2 ^ 3000 = 2 ^ (- e) * 2 ^ (e + 3000)).
  { rewrite <- pow2_add by lia. f_equal. lia. }
  assert (Hmk : Zpos m = k * 2 ^ (- e)).
  { unfold dyadic in Hk. rewrite Hp3 in Hk. nia. }
  assert (Hn : (2 * Zpos m + 2 ^ (- e)) / 2 ^ (1 - e) = k).
  { symmetry. apply Z.div_unique with (r := 2 ^ (- e)); [lia | rewrite Hp1, Hmk; ring]. }
  rewrite Hn. assert (Hkpos : 0 < k) by nia.
  destruct (Z.eqb_spec k 0) as [-> | _]; [lia|].
  apply of_Z_exact; assumption.
Qed.

Lemma of_Z_one : JS.of_Z 1 = S754_finite false 4503599627370496 (-52).
Proof. reflexivity. Qed.

(** Multiplying by 1 changes nothing. *)
Lemma mul_one (x : JS.number) : nonneg x = true -> JS.mul x (JS.of_Z 1) = x.
Proof.
  intros Hx. rewrite of_Z_one.
  destruct x as [[|] | [|] | | [|] m e]; try discriminate; try reflexivity.
  cbn [nonneg] in Hx.
  assert (Hone : bounded JS.prec JS.emax 4503599627370496 (-52) = true) by reflexivity.
  assert (Hv : dyadic (Zpos 4503599627370496) (-52) = 2 ^ 3000) by (vm_compute; reflexivity).
  destruct (mul_positive_finite m 4503599627370496 e (-52) Hx Hone) as (_ & Hdown & Hup).
  destruct (Hdown ltac:(lia)) as (_ & Hninf & Hle).
  destruct (Hup ltac:(lia)) as [Hinf | [Hpf Hge]]; [contradiction|].
  apply positive_finite_inv in Hpf as (m' & e' & Heq & Hb').
  rewrite Heq in *. cbn [value] in Hle, Hge.
  apply valid_eq; [apply bounded_canonical, Hb' | apply bounded_canonical, Hx | lia].
Qed.

Lemma price_integral (p : Property) : integral (price p).
Proof.
  unfold price. destruct (lastSoldPrice p) as [| n]; [exists 0; reflexivity|].
  change (Z.of_N (N.pos n)) with (Zpos n). apply of_Z_pos_spec.
Qed.

(** A price that is not greater than 0 is 0. *)
Lemma price_not_gt (p : Property) :
  JS.gt (price p) (JS.of_Z 0) = false -> lastSoldPrice p = 0%N.
Proof.
  intros H. destruct (lastSoldPrice p) as [| n] eqn:Hp; [reflexivity|].
  rewrite price_gt_zero in H; [discriminate | rewrite Hp; reflexivity].
Qed.

(** What is at least a positive number is positive. *)
Lemma ge_gt_zero (a b : JS.number) :
  JS.ge b a = true -> JS.gt a (JS.of_Z 0) = true -> JS.gt b (JS.of_Z 0) = true.
Proof.
  rewrite of_Z_zero. unfold JS.ge, JS.gt, SFleb, SFltb.
  destruct a as [[|] | [|] | | [|] ma ea], b as [[|] | [|] | | [|] mb eb];
    cbn [SFcompare]; congruence.
Qed.

(** In the current version every growth factor is a valid number not
    below 1: the index of 2024 is the largest of every table. *)
Lemma App_growth_at_least_one (idx : Obj.value) (y : option Z) :
  In idx (Obj.objects App.HPI_DATA) ->
  positive_finite (JS.div (App.indexNew idx) (App.indexOld idx y)) = true /\
  2 ^ 3000 <= value (JS.div (App.indexNew idx) (App.indexOld idx y)).
Proof.
  intros Hin.
  assert (Hall : forallb (fun o =>
                   forallb (fun old => positive_finite (JS.div (App.indexNew o) old) &&
                                       (2 ^ 3000 <=? value (JS.div (App.indexNew o) old)))
                           (JS.of_Z 100 :: Obj.values o))
                 (Obj.objects App.HPI_DATA) = true) by (vm_compute; reflexivity).
  rewrite forallb_forall in Hall. specialize (Hall idx Hin).
  unfold App.indexOld.
  pose proof (or_default_check
                (fun old => positive_finite (JS.div (App.indexNew idx) old) &&
                            (2 ^ 3000 <=? value (JS.div (App.indexNew idx) old)))
                idx y _ Hall) as H.
  cbv beta in H. apply andb_true_iff in H as [H1 H2]. apply Z.leb_le in H2. auto.
Qed.

Section Estimates.

Variable Date_getFullYear : string -> option Z.
Variable Date_behindUTC : bool.

(** X1.  The current version never values a record below its last sold
    price: the growth factor is at least 1 and the estimate at least the
    price, for every record, region key and date. *)
Theorem estimate_not_below_price (p : Property) (k : string) :
  exists r,
    App.calculateValuation Date_getFullYear p k = JS.Normal r /\
    JS.ge (App.growthFactor r) (JS.of_Z 1) = true /\
    JS.ge (App.estimatedValue r) (price p) = true.
Proof.
  destruct (App_indexData_total k) as (idx & Hidx & Hin).
  eexists. unfold App.calculateValuation. rewrite Hidx. split; [reflexivity|].
  cbn [App.growthFactor App.estimatedValue].
  set (gf := JS.div (App.indexNew idx) (App.indexOld idx (App.soldYear Date_getFullYear p))).
  destruct (App_growth_at_least_one idx (App.soldYear Date_getFullYear p) Hin) as [Hgf Hone].
  fold gf in Hgf, Hone. split.
  - unfold JS.ge. rewrite of_Z_one. apply SFleb_value_ge; [reflexivity|].
    right. split; [exact Hgf|].
    replace (dyadic (Zpos 4503599627370496) (-52)) with (2 ^ 3000) by (vm_compute; reflexivity).
    exact Hone.
  - destruct (JS.gt (price p) (JS.of_Z 0)) eqn:Hgt.
    + destruct factor_95 as [H95 V95]. rewrite of_Z_zero in Hgt.
      exact (proj2 (round_band (price p) _ gf (price_nonneg p) (price_integral p)
                               H95 V95 Hgf Hone Hgt)).
    + rewrite (price_zero p (price_not_gt p Hgt)). reflexivity.
Qed.

(** X2.  In the current version the page shows "Valuation Unavailable"
    exactly for the records whose last sold price is 0. *)
Theorem unavailable_iff_no_price (p : Property) (k : string) :
  exists r,
    App.calculateValuation Date_getFullYear p k = JS.Normal r /\
    (App.unavailable r = true <-> lastSoldPrice p = 0%N).
Proof.
  destruct (App_indexData_total k) as (idx & Hidx & Hin).
  eexists. unfold App.calculateValuation. rewrite Hidx. split; [reflexivity|].
  unfold App.unavailable. cbn [App.estimatedValue].
  set (gf := JS.div (App.indexNew idx) (App.indexOld idx (App.soldYear Date_getFullYear p))).
  destruct (App_growth_at_least_one idx (App.soldYear Date_getFullYear p) Hin) as [Hgf Hone].
  fold gf in Hgf, Hone.
  destruct (JS.gt (price p) (JS.of_Z 0)) eqn:Hgt.
  - destruct factor_95 as [H95 V95].
    assert (Hge : JS.ge (JS.Math_round (JS.mul (price p) gf)) (price p) = true).
    { rewrite of_Z_zero in Hgt.
      exact (proj2 (round_band (price p) _ gf (price_nonneg p) (price_integral p)
                               H95 V95 Hgf Hone Hgt)). }
    rewrite (ge_gt_zero _ _ Hge Hgt). split; [discriminate|].
    intros Hp. rewrite (price_zero p Hp) in Hgt. discriminate.
  - split; [intros _; apply price_not_gt, Hgt | reflexivity].
Qed.

(** X3.  The estimate and both bounds are whole numbers: each is the
    number of a non-negative integer, or [Infinity]. *)
Theorem results_are_whole_numbers (p : Property) (k : string) :
  let whole x := x = S754_infinity false \/ exists n, 0 <= n /\ x = JS.of_Z n in
  (exists r,
      App.calculateValuation Date_getFullYear p k = JS.Normal r /\
      whole (App.estimatedValue r) /\ whole (App.lowerBound r) /\
      whole (App.upperBound r)) /\
  (exists r,
      AppChart.calculateValuation Date_getFullYear Date_behindUTC p k = JS.Normal r /\
      whole (AppChart.estimatedValue r) /\ whole (AppChart.lowerBound r) /\
      whole (AppChart.upperBound r) /\
      forall pt, In pt (AppChart.chartData r) -> whole (AppChart.value pt)).
Proof.
  intros whole. destruct factor_95 as [H95 _]. destruct factor_105 as [H105 _].
  split.
  - destruct (App_indexData_total k) as (idx & Hidx & Hin).
    eexists. unfold App.calculateValuation. rewrite Hidx. split; [reflexivity|].
    cbn [App.lowerBound App.upperBound App.estimatedValue].
    set (gf := JS.div (App.indexNew idx) (App.indexOld idx (App.soldYear Date_getFullYear p))).
    assert (Hgf : positive_finite gf = true) by (apply App_growth_positive_finite, Hin).
    set (est := if JS.gt (price p) (JS.of_Z 0)
                then JS.Math_round (JS.mul (price p) gf) else JS.of_Z 0).
    assert (Hest : nonneg est = true /\ integral est).
    { unfold est. destruct (JS.gt (price p) (JS.of_Z 0)).
      - apply estimate_whole; [apply price_nonneg | exact Hgf].
      - apply zero_whole. }
    destruct Hest as [Hnn Hint].
    destruct (estimate_whole est _ Hnn H95) as [Hlo1 Hlo2].
    destruct (estimate_whole est _ Hnn H105) as [Hhi1 Hhi2].
    split; [apply whole_number; assumption|].
    split; apply whole_number; assumption.
  - destruct (AppChart_indexData_total k) as (idx & Hidx & Hin).
    eexists. unfold AppChart.calculateValuation. rewrite Hidx. split; [reflexivity|].
    cbn [AppChart.lowerBound AppChart.upperBound AppChart.estimatedValue AppChart.chartData].
    set (sy := AppChart.soldYear Date_getFullYear Date_behindUTC p).
    set (gf := JS.div (AppChart.indexNew idx) (AppChart.indexOld idx sy)).
    assert (Hgf : positive_finite gf = true) by (apply AppChart_growth_positive_finite, Hin).
    destruct (estimate_whole (price p) gf (price_nonneg p) Hgf) as [Hnn Hint].
    destruct (estimate_whole _ _ Hnn H95) as [Hlo1 Hlo2].
    destruct (estimate_whole _ _ Hnn H105) as [Hhi1 Hhi2].
    split; [apply whole_number; assumption|].
    split; [apply whole_number; assumption|].
    split; [apply whole_number; assumption|].
    intros pt Hpt. destruct (chart_points p idx _ sy pt Hpt) as (v & Hvin & _ & _ & ->).
    destruct (estimate_whole (price p) _ (price_nonneg p)
                (AppChart_ratio_positive_finite idx sy v Hin Hvin)) as [Hv1 Hv2].
    apply whole_number; assumption.
Qed.

End Estimates.

(** ** Region keys of the classifiers *)

Lemma App_classify_key (region : option string) :
  In (App.classify region) (map fst App.HPI_DATA).
Proof.
  unfold App.classify.
  destruct (and_includes region "London"), (and_includes region "South East");
    cbn; auto.
Qed.

Lemma AppChart_classify_key (region : option string) :
  In (AppChart.classify region) (map fst AppChart.HPI_DATA).
Proof.
  unfold AppChart.classify.
  destruct (and_includes region "London"), (and_includes region "South East");
    cbn; auto.
Qed.

(** A key of the table reads the table written for it. *)
Lemma App_key_reads_own_table (k : string) :
  In k (map fst App.HPI_DATA) ->
  exists t, Obj.own App.HPI_DATA k = Some t /\ In t (map snd App.HPI_DATA) /\
            App.indexData k = Some (Obj.Table t).
Proof.
  intros Hk. cbn [App.HPI_DATA map fst In] in Hk.
  destruct Hk as [<- | [<- | [<- | []]]];
    (destruct (Obj.own App.HPI_DATA _) as [t |] eqn:Hown; [| vm_compute in Hown; discriminate]);
    exists t; (split; [reflexivity|]); (split; [eapply own_In, Hown|]);
    unfold App.indexData, Obj.get; rewrite Hown; reflexivity.
Qed.

Lemma AppChart_key_reads_own_table (k : string) :
  In k (map fst AppChart.HPI_DATA) ->
  exists t, Obj.own AppChart.HPI_DATA k = Some t /\ In t (map snd AppChart.HPI_DATA) /\
            AppChart.indexData k = Some (Obj.Table t).
Proof.
  intros Hk. cbn [AppChart.HPI_DATA map fst In] in Hk.
  destruct Hk as [<- | [<- | [<- | []]]];
    (destruct (Obj.own AppChart.HPI_DATA _) as [t |] eqn:Hown; [| vm_compute in Hown; discriminate]);
    exists t; (split; [reflexivity|]); (split; [eapply own_In, Hown|]);
    unfold AppChart.indexData, Obj.get; rewrite Hown; reflexivity.
Qed.

(** X4.  Whatever postcodes.io answers, the region key handed to the
    valuation is a key of [HPI_DATA]: the valuation reads the table
    written for that key, never an inherited member and never the
    substitute, and does not throw. *)
Theorem resolved_region_reads_own_table (getFullYear : string -> option Z)
    (behindUTC : bool)
    (p : Property) (input : string) (res : PostcodeResponse) :
  (let k := App.regionKey (App.getPostcodeDetails input res) in
   In k (map fst App.HPI_DATA) /\
   exists t r,
     Obj.own App.HPI_DATA k = Some t /\
     App.indexData k = Some (Obj.Table t) /\
     App.calculateValuation getFullYear p k = JS.Normal r) /\
  (let k := AppChart.getRegionForPostcode res in
   In k (map fst AppChart.HPI_DATA) /\
   exists t r,
     Obj.own AppChart.HPI_DATA k = Some t /\
     AppChart.indexData k = Some (Obj.Table t) /\
     AppChart.calculateValuation getFullYear behindUTC p k = JS.Normal r).
Proof.
  split; cbv zeta.
  - assert (Hk : In (App.regionKey (App.getPostcodeDetails input res)) (map fst App.HPI_DATA)).
    { destruct res as [| region ad fmt]; cbn [App.getPostcodeDetails App.regionKey].
      - cbn. auto.
      - apply App_classify_key. }
    split; [exact Hk|].
    destruct (App_key_reads_own_table _ Hk) as (t & Hown & _ & Hidx).
    exists t. eexists. split; [exact Hown|]. split; [exact Hidx|].
    unfold App.calculateValuation. rewrite Hidx. reflexivity.
  - assert (Hk : In (AppChart.getRegionForPostcode res) (map fst AppChart.HPI_DATA)).
    { destruct res as [| region ad fmt]; cbn [AppChart.getRegionForPostcode].
      - cbn. auto.
      - apply AppChart_classify_key. }
    split; [exact Hk|].
    destruct (AppChart_key_reads_own_table _ Hk) as (t & Hown & _ & Hidx).
    exists t. eexists. split; [exact Hown|]. split; [exact Hidx|].
    unfold AppChart.calculateValuation. rewrite Hidx. reflexivity.
Qed.

(** X5.  The two classifiers return the same region key exactly for the
    labels that do not contain both "London" and "South East"; so do
    [getPostcodeDetails] and [getRegionForPostcode] on the same answer. *)
Theorem classifiers_agree_unless_both (input : string) (res : PostcodeResponse) :
  (forall region,
     App.classify region = AppChart.classify region <->
     ~ (and_includes region "London" = true /\ and_includes region "South East" = true)) /\
  (App.regionKey (App.getPostcodeDetails input res) = AppChart.getRegionForPostcode res <->
   match res with
   | Unreachable => True
   | Status200 region admin_district _ =>
       ~ (and_includes (or_string region admin_district) "London" = true /\
          and_includes (or_string region admin_district) "South East" = true)
   end).
Proof.
  assert (Hc : forall region,
     App.classify region = AppChart.classify region <->
     ~ (and_includes region "London" = true /\ and_includes region "South East" = true)).
  { intros region. unfold App.classify, AppChart.classify.
    destruct (and_includes region "London"), (and_includes region "South East"); cbn;
      (split;
       [ first [discriminate | intros _ [? ?]; discriminate]
       | first [reflexivity | intros H; exfalso; apply H; split; reflexivity] ]). }
  split; [exact Hc|].
  destruct res as [| region ad fmt]; cbn [App.getPostcodeDetails App.regionKey
                                          AppChart.getRegionForPostcode].
  - split; [trivial | reflexivity].
  - apply Hc.
Qed.

(** ** Sold years of the current version *)

Lemma lookup_absent (t : Obj.table) (y : Z) :
  ~ In y (map fst t) -> Obj.lookup t y = None.
Proof.
  induction t as [| [y' v] rest IH]; cbn [Obj.lookup map fst In]; [reflexivity|].
  intros Hn. destruct (Z.eqb_spec y y') as [-> | Hne].
  - contradiction Hn. left. reflexivity.
  - apply IH. intros Hin. apply Hn. right. exact Hin.
Qed.

(** Every table of the current version holds the same five years. *)
Lemma App_table_years (t : Obj.table) :
  In t (map snd App.HPI_DATA) -> map fst t = [2000; 2010; 2015; 2020; 2024].
Proof.
  intros Ht. cbv [App.HPI_DATA map snd In] in Ht.
  repeat (destruct Ht as [<- | Ht]; [reflexivity|]). destruct Ht.
Qed.

Lemma App_year_absent (o : Obj.value) (y : Z) :
  In o (Obj.objects App.HPI_DATA) ->
  ~ In y [2000; 2010; 2015; 2020; 2024] ->
  Obj.get_year o (Some y) = None.
Proof.
  intros Ho Hy. destruct Ho as [<- | Ho]; [reflexivity|].
  apply in_map_iff in Ho as (t & <- & Ht). cbn [Obj.get_year].
  apply lookup_absent. rewrite (App_table_years t Ht). exact Hy.
Qed.

Lemma App_base_year_index (o : Obj.value) :
  In o (Obj.objects App.HPI_DATA) -> App.indexOld o (Some 2015) = JS.of_Z 100.
Proof.
  intros Ho. cbv [Obj.objects App.HPI_DATA map snd In] in Ho.
  repeat (destruct Ho as [<- | Ho]; [vm_compute; reflexivity|]). destruct Ho.
Qed.

Section SoldYears.

Variable Date_getFullYear : string -> option Z.
Variable Date_behindUTC : bool.

(** X6.  The current version uses the year of the last sale only when
    it is 2000, 2010, 2015, 2020 or 2024: for every other year, and for
    a date that is no date, the result is the result of the same record
    without a date. *)
Theorem date_outside_table_is_ignored (p : Property) (k : string) :
  (forall y, App.soldYear Date_getFullYear p = Some y ->
             ~ In y [2000; 2010; 2015; 2020; 2024]) ->
  App.calculateValuation Date_getFullYear p k =
  App.calculateValuation Date_getFullYear (withoutDate p) k.
Proof.
  intros Hy. destruct (App_indexData_total k) as (idx & Hidx & Hin).
  unfold App.calculateValuation. rewrite Hidx.
  change (price (withoutDate p)) with (price p).
  change (App.soldYear Date_getFullYear (withoutDate p)) with (Some 2015).
  assert (Hold : App.indexOld idx (App.soldYear Date_getFullYear p) = JS.of_Z 100).
  { unfold App.indexOld. destruct (App.soldYear Date_getFullYear p) as [y |] eqn:Hs.
    - rewrite (App_year_absent idx y Hin (Hy y eq_refl)). reflexivity.
    - destruct idx; reflexivity. }
  rewrite Hold, (App_base_year_index idx Hin). reflexivity.
Qed.

End SoldYears.

(** X6 at 10 Downing Street: the sale of 2005 is valued like a sale
    without a date. *)
Lemma date_outside_table_is_ignored_witness :
  (forall y, App.soldYear isoYear downing10 = Some y ->
             ~ In y [2000; 2010; 2015; 2020; 2024]) /\
  App.calculateValuation isoYear downing10 "London" =
  App.calculateValuation isoYear (withoutDate downing10) "London".
Proof.
  assert (Hy : forall y, App.soldYear isoYear downing10 = Some y ->
                         ~ In y [2000; 2010; 2015; 2020; 2024]).
  { intros y Hs. vm_compute in Hs. injection Hs as <-.
    cbn. intros [H | [H | [H | [H | [H | []]]]]]; discriminate. }
  split; [exact Hy|].
  exact (date_outside_table_is_ignored isoYear downing10 "London" Hy).
Defined.

(** ** The market growth shown on the result page *)

Section MarketGrowth.

Variable Date_getFullYear : string -> option Z.
Variable Date_behindUTC : bool.

(** X7.  The number shown after "+" as market growth,
    [Math.round((growthFactor - 1) * 100)], is never negative in the
    current version.  In the chart version it is non-negative exactly
    when the current-year index is at least the sold-year index: a sale
    at a higher index shows a negative number after the "+". *)
Theorem market_growth_sign (p : Property) (k : string) :
  (exists r,
      App.calculateValuation Date_getFullYear p k = JS.Normal r /\
      JS.ge (Page.marketGrowth (App.growthFactor r)) (JS.of_Z 0) = true) /\
  (exists idx r,
      AppChart.indexData k = Some idx /\
      AppChart.calculateValuation Date_getFullYear Date_behindUTC p k = JS.Normal r /\
      (JS.ge (Page.marketGrowth (AppChart.growthFactor r)) (JS.of_Z 0) = true <->
       JS.ge (AppChart.indexNew idx)
             (AppChart.indexOld idx (AppChart.soldYear Date_getFullYear Date_behindUTC p)) = true)).
Proof.
  split.
  - destruct (App_indexData_total k) as (idx & Hidx & Hin).
    eexists. unfold App.calculateValuation. rewrite Hidx. split; [reflexivity|].
    cbn [App.growthFactor].
    assert (Hall : forallb (fun o =>
                     forallb (fun old => JS.ge (Page.marketGrowth (JS.div (App.indexNew o) old))
                                               (JS.of_Z 0))
                             (JS.of_Z 100 :: Obj.values o))
                   (Obj.objects App.HPI_DATA) = true) by (vm_compute; reflexivity).
    rewrite forallb_forall in Hall. specialize (Hall idx Hin). unfold App.indexOld.
    exact (or_default_check
             (fun old => JS.ge (Page.marketGrowth (JS.div (App.indexNew idx) old)) (JS.of_Z 0))
             idx _ _ Hall).
  - destruct (AppChart_indexData_total k) as (idx & Hidx & Hin).
    exists idx. eexists. split; [exact Hidx|].
    unfold AppChart.calculateValuation. rewrite Hidx. split; [reflexivity|].
    cbn [AppChart.growthFactor].
    assert (Hall : forallb (fun o =>
                     forallb (fun old =>
                                Bool.eqb
                                  (JS.ge (Page.marketGrowth (JS.div (AppChart.indexNew o) old))
                                         (JS.of_Z 0))
                                  (JS.ge (AppChart.indexNew o) old))
                             (JS.of_Z 100 :: Obj.values o))
                   (Obj.objects AppChart.HPI_DATA) = true) by (vm_compute; reflexivity).
    rewrite forallb_forall in Hall. specialize (Hall idx Hin). unfold AppChart.indexOld.
    pose proof (or_default_check
                  (fun old => Bool.eqb
                                (JS.ge (Page.marketGrowth (JS.div (AppChart.indexNew idx) old))
                                       (JS.of_Z 0))
                                (JS.ge (AppChart.indexNew idx) old))
                  idx (AppChart.soldYear Date_getFullYear Date_behindUTC p) _ Hall) as H.
    cbv beta in H. apply Bool.eqb_prop in H. rewrite H. reflexivity.
Qed.

End MarketGrowth.

(** ** A sale in the current year *)

Lemma App_current_year_factor (t : Obj.table) :
  In t (map snd App.HPI_DATA) ->
  JS.div (App.indexNew (Obj.Table t)) (App.indexOld (Obj.Table t) (Some 2024)) = JS.of_Z 1.
Proof.
  intros Ht. cbv [App.HPI_DATA map snd In] in Ht.
  repeat (destruct Ht as [<- | Ht]; [vm_compute; reflexivity|]). destruct Ht.
Qed.

Lemma AppChart_current_year_factor (t : Obj.table) :
  In t (map snd AppChart.HPI_DATA) ->
  JS.div (AppChart.indexNew (Obj.Table t)) (AppChart.indexOld (Obj.Table t) (Some 2024)) =
  JS.of_Z 1.
Proof.
  intros Ht. cbv [AppChart.HPI_DATA map snd In] in Ht.
  repeat (destruct Ht as [<- | Ht]; [vm_compute; reflexivity|]). destruct Ht.
Qed.

(** The estimate of a price at the growth factor 1 is the price. *)
Lemma estimate_at_factor_one (p : Property) :
  JS.Math_round (JS.mul (price p) (JS.of_Z 1)) = price p.
Proof.
  rewrite mul_one by apply price_nonneg.
  apply Math_round_whole; [apply price_nonneg | apply price_integral].
Qed.

Section CurrentYear.

Variable Date_getFullYear : string -> option Z.
Variable Date_behindUTC : bool.

(** X8.  A record sold in 2024, the current year of the engine, in a
    region of the table is valued at its last sold price: the growth
    factor is exactly 1 and the estimate is the price. *)
Theorem sold_in_current_year (p : Property) (k : string) :
  In k (map fst App.HPI_DATA) ->
  (App.soldYear Date_getFullYear p = Some 2024 ->
   exists r,
     App.calculateValuation Date_getFullYear p k = JS.Normal r /\
     App.growthFactor r = JS.of_Z 1 /\ App.estimatedValue r = price p) /\
  (AppChart.soldYear Date_getFullYear Date_behindUTC p = Some 2024 ->
   exists r,
     AppChart.calculateValuation Date_getFullYear Date_behindUTC p k = JS.Normal r /\
     AppChart.growthFactor r = JS.of_Z 1 /\ AppChart.estimatedValue r = price p).
Proof.
  intros Hk. split; intros Hy.
  - destruct (App_key_reads_own_table k Hk) as (t & _ & Ht & Hidx).
    eexists. unfold App.calculateValuation. rewrite Hidx, Hy. split; [reflexivity|].
    cbn [App.growthFactor App.estimatedValue].
    rewrite (App_current_year_factor t Ht). split; [reflexivity|].
    destruct (JS.gt (price p) (JS.of_Z 0)) eqn:Hgt.
    + apply estimate_at_factor_one.
    + rewrite (price_zero p (price_not_gt p Hgt)). reflexivity.
  - assert (Hk' : In k (map fst AppChart.HPI_DATA)).
    { destruct region_keys as [Ha Hb]. rewrite Hb, <- Ha. exact Hk. }
    destruct (AppChart_key_reads_own_table k Hk') as (t & _ & Ht & Hidx).
    eexists. unfold AppChart.calculateValuation. rewrite Hidx, Hy. split; [reflexivity|].
    cbn [AppChart.growthFactor AppChart.estimatedValue].
    rewrite (AppChart_current_year_factor t Ht). split; [reflexivity|].
    apply estimate_at_factor_one.
Qed.

End CurrentYear.

(** X8 at a record sold in February 2024. *)
Lemma sold_in_current_year_witness :
  In "South East"%string (map fst App.HPI_DATA) /\
  App.soldYear isoYear sold2024 = Some 2024 /\
  exists r,
    App.calculateValuation isoYear sold2024 "South East" = JS.Normal r /\
    App.growthFactor r = JS.of_Z 1 /\ App.estimatedValue r = JS.of_Z 610000.
Proof.
  assert (Hk : In "South East"%string (map fst App.HPI_DATA)) by (cbn; auto).
  assert (Hy : App.soldYear isoYear sold2024 = Some 2024) by reflexivity.
  split; [exact Hk|]. split; [exact Hy|].
  exact (proj1 (sold_in_current_year isoYear false sold2024 "South East" Hk) Hy).
Defined.

(** ** The two versions side by side *)

(** Every table of the chart version holds the years 2000 to 2024. *)
Lemma AppChart_table_years (t : Obj.table) :
  In t (map snd AppChart.HPI_DATA) ->
  map fst t = map Z.of_nat (seq 2000 25).
Proof.
  intros Ht. cbv [AppChart.HPI_DATA map snd In] in Ht.
  repeat (destruct Ht as [<- | Ht]; [reflexivity|]). destruct Ht.
Qed.

Lemma year_outside_range (y : Z) :
  y < 2000 \/ 2024 < y -> ~ In y (map Z.of_nat (seq 2000 25)).
Proof.
  intros Hy Hin. apply in_map_iff in Hin as (n & <- & Hn). apply in_seq in Hn. lia.
Qed.

(** The index objects the two versions read for one region key. *)
Lemma version_objects (k : string) :
  exists a b,
    App.indexData k = Some a /\ AppChart.indexData k = Some b /\
    In (a, b) (combine (Obj.objects App.HPI_DATA) (Obj.objects AppChart.HPI_DATA)).
Proof.
  unfold App.indexData, AppChart.indexData, Obj.get, Obj.objects.
  unfold App.HPI_DATA, AppChart.HPI_DATA. cbn [Obj.own map snd combine].
  destruct (String.eqb k "London").
  { do 2 eexists. split; [reflexivity|]. split; [reflexivity|]. right. left. reflexivity. }
  destruct (String.eqb k "South East").
  { do 2 eexists. split; [reflexivity|]. split; [reflexivity|].
    right. right. left. reflexivity. }
  destruct (String.eqb k "UK Average").
  { do 2 eexists. split; [reflexivity|]. split; [reflexivity|].
    right. right. right. left. reflexivity. }
  destruct (Obj.inherited k).
  { do 2 eexists. split; [reflexivity|]. split; [reflexivity|]. left. reflexivity. }
  do 2 eexists. split; [reflexivity|]. split; [reflexivity|].
  right. right. right. left. reflexivity.
Qed.

(** On the five years of the current version, on no year and on the
    current year both versions read the same index. *)
Lemma version_objects_agree (a b : Obj.value) :
  In (a, b) (combine (Obj.objects App.HPI_DATA) (Obj.objects AppChart.HPI_DATA)) ->
  App.indexNew a = AppChart.indexNew b /\
  App.indexOld a (Some 2015) = JS.of_Z 100 /\
  (forall y, In y [2000; 2010; 2015; 2020; 2024] ->
             App.indexOld a (Some y) = AppChart.indexOld b (Some y)) /\
  In a (Obj.objects App.HPI_DATA) /\ In b (Obj.objects AppChart.HPI_DATA).
Proof.
  intros H. split; [| split; [| split; [| split]]].
  - cbv [Obj.objects App.HPI_DATA AppChart.HPI_DATA map snd combine In] in H.
    repeat (destruct H as [[= <- <-] | H]; [vm_compute; reflexivity|]). destruct H.
  - apply App_base_year_index. eapply in_combine_l, H.
  - intros y Hy.
    cbv [Obj.objects App.HPI_DATA AppChart.HPI_DATA map snd combine In] in H.
    cbn [In] in Hy.
    repeat (destruct H as [[= <- <-] | H];
            [repeat (destruct Hy as [<- | Hy]; [vm_compute; reflexivity|]); destruct Hy|]).
    destruct H.
  - eapply in_combine_l, H.
  - eapply in_combine_r, H.
Qed.

Lemma AppChart_year_absent (o : Obj.value) (y : Z) :
  In o (Obj.objects AppChart.HPI_DATA) -> y < 2000 \/ 2024 < y ->
  Obj.get_year o (Some y) = None.
Proof.
  intros Ho Hy. destruct Ho as [<- | Ho]; [reflexivity|].
  apply in_map_iff in Ho as (t & <- & Ht). cbn [Obj.get_year].
  apply lookup_absent. rewrite (AppChart_table_years t Ht). apply year_outside_range, Hy.
Qed.

Section Versions.

Variable Date_getFullYear : string -> option Z.
Variable Date_behindUTC : bool.

(** X9.  When the empty string reads as no date, the two versions give
    the same estimate, bounds and growth factor for every record whose
    sold year is absent, is no year, is one of 2000, 2010, 2015, 2020 and
    2024, or lies outside 2000-2024: they can differ only on the years
    the table of the current version leaves out. *)
Theorem versions_agree_on_common_years (p : Property) (k : string) :
  Date_getFullYear EmptyString = None ->
  (forall y, AppChart.soldYear Date_getFullYear Date_behindUTC p = Some y ->
             In y [2000; 2010; 2015; 2020; 2024] \/ y < 2000 \/ 2024 < y) ->
  exists a b,
    App.calculateValuation Date_getFullYear p k = JS.Normal a /\
    AppChart.calculateValuation Date_getFullYear Date_behindUTC p k = JS.Normal b /\
    App.estimatedValue a = AppChart.estimatedValue b /\
    App.lowerBound a = AppChart.lowerBound b /\
    App.upperBound a = AppChart.upperBound b /\
    App.growthFactor a = AppChart.growthFactor b.
Proof.
  intros Hempty Hy.
  destruct (version_objects k) as (ia & ib & Ha & Hb & Hpair).
  destruct (version_objects_agree ia ib Hpair) as (Hnew & Hbase & Hyears & Hina & Hinb).
  do 2 eexists. unfold App.calculateValuation, AppChart.calculateValuation.
  rewrite Ha, Hb. split; [reflexivity|]. split; [reflexivity|].
  cbn [App.estimatedValue App.lowerBound App.upperBound App.growthFactor
       AppChart.estimatedValue AppChart.lowerBound AppChart.upperBound AppChart.growthFactor].
  assert (Hnone : AppChart.indexOld ib None = JS.of_Z 100).
  { unfold AppChart.indexOld. destruct ib; reflexivity. }
  assert (Hold : App.indexOld ia (App.soldYear Date_getFullYear p) =
                 AppChart.indexOld ib (AppChart.soldYear Date_getFullYear Date_behindUTC p)).
  { unfold App.soldYear, AppChart.soldYear in *.
    destruct (lastSoldDate p) as [| | d];
      [rewrite Hbase, Hnone; reflexivity
      | rewrite Hbase, (proj1 (AppChart_epoch_reads ib Date_behindUTC Hinb)); reflexivity |].
    destruct d as [| c d']; cbn [JS.truthy_string].
    - rewrite Hempty, Hbase, Hnone. reflexivity.
    - destruct (Date_getFullYear (String c d')) as [y |] eqn:Hd.
      + destruct (Hy y eq_refl) as [Hin | Hout]; [apply Hyears, Hin|].
        unfold App.indexOld, AppChart.indexOld.
        rewrite (AppChart_year_absent ib y Hinb Hout).
        rewrite (App_year_absent ia y Hina); [reflexivity|].
        cbn. intros [H | [H | [H | [H | [H | []]]]]]; lia.
      + unfold App.indexOld. rewrite Hnone. destruct ia; reflexivity. }
  rewrite Hold, Hnew.
  set (gf := JS.div (AppChart.indexNew ib)
                    (AppChart.indexOld ib (AppChart.soldYear Date_getFullYear Date_behindUTC p))).
  assert (Hgf : positive_finite gf = true) by (apply AppChart_growth_positive_finite, Hinb).
  assert (Hest : (if JS.gt (price p) (JS.of_Z 0)
                  then JS.Math_round (JS.mul (price p) gf) else JS.of_Z 0) =
                 JS.Math_round (JS.mul (price p) gf)).
  { destruct (JS.gt (price p) (JS.of_Z 0)) eqn:Hgt; [reflexivity|].
    rewrite (price_zero p (price_not_gt p Hgt)), (mul_zero_positive gf Hgf). reflexivity. }
  rewrite Hest. repeat split; reflexivity.
Qed.

End Versions.

(** X9 at a record sold in 2010. *)
Lemma versions_agree_on_common_years_witness :
  isoYear EmptyString = None /\
  (forall y, AppChart.soldYear isoYear false sold2010 = Some y ->
             In y [2000; 2010; 2015; 2020; 2024] \/ y < 2000 \/ 2024 < y) /\
  exists a b,
    App.calculateValuation isoYear sold2010 "UK Average" = JS.Normal a /\
    AppChart.calculateValuation isoYear false sold2010 "UK Average" = JS.Normal b /\
    App.estimatedValue a = AppChart.estimatedValue b /\
    App.growthFactor a = AppChart.growthFactor b.
Proof.
  assert (Hempty : isoYear EmptyString = None) by reflexivity.
  assert (Hy : forall y, AppChart.soldYear isoYear false sold2010 = Some y ->
                         In y [2000; 2010; 2015; 2020; 2024] \/ y < 2000 \/ 2024 < y).
  { intros y Hs. vm_compute in Hs. injection Hs as <-. left. cbn. auto. }
  split; [exact Hempty|]. split; [exact Hy|].
  destruct (versions_agree_on_common_years isoYear false sold2010 "UK Average" Hempty Hy)
    as (a & b & Ha & Hb & Hest & _ & _ & Hgf).
  exists a, b. repeat split; assumption.
Defined.

(** ** The ends of the price trend *)

Lemma filter_from_member (y : Z) (l : list Z) :
  StronglySorted Z.lt l -> In y l ->
  exists rest, filter (fun year => y <=? year) l = y :: rest.
Proof.
  induction 1 as [| x rest Hs IH Hall]; intros Hin; [destruct Hin|].
  cbn [filter]. destruct Hin as [-> | Hin].
  - rewrite Z.leb_refl. eexists. reflexivity.
  - rewrite Forall_forall in Hall. pose proof (Hall y Hin) as Hlt.
    destruct (Z.leb_spec y x) as [Hle | _]; [lia|]. apply IH, Hin.
Qed.

Lemma filter_keeps_last (f : Z -> bool) (front : list Z) (z : Z) :
  f z = true -> filter f (front ++ [z]) = filter f front ++ [z].
Proof. intros Hz. rewrite filter_app. cbn [filter]. rewrite Hz. reflexivity. Qed.

(** A key that is not inherited reads a table of the chart version. *)
Lemma AppChart_reads_table (k : string) :
  Obj.inherited k = false ->
  exists t, AppChart.indexData k = Some (Obj.Table t) /\ In t (map snd AppChart.HPI_DATA).
Proof.
  intros Hinh. unfold AppChart.indexData, Obj.get. rewrite Hinh.
  destruct (Obj.own AppChart.HPI_DATA k) as [t |] eqn:Hown.
  - exists t. split; [reflexivity | eapply own_In, Hown].
  - destruct (Obj.own AppChart.HPI_DATA "UK Average") as [t |] eqn:Huk.
    + exists t. split; [reflexivity | eapply own_In, Huk].
    + vm_compute in Huk. discriminate.
Qed.

(** Every stored index of the chart version is truthy and divides
    itself to 1. *)
Lemma AppChart_index_self (o : Obj.value) (v : JS.number) :
  In o (Obj.objects AppChart.HPI_DATA) -> In v (Obj.values o) ->
  JS.truthy v = true /\ JS.div v v = JS.of_Z 1.
Proof.
  intros Ho Hv.
  assert (Hall : forallb (fun o =>
                   forallb (fun v => JS.truthy v &&
                                     match JS.div v v with
                                     | S754_finite false m e =>
                                         Pos.eqb m 4503599627370496 && (e =? -52)
                                     | _ => false
                                     end)
                           (Obj.values o))
                 (Obj.objects AppChart.HPI_DATA) = true) by (vm_compute; reflexivity).
  rewrite forallb_forall in Hall. specialize (Hall o Ho).
  rewrite forallb_forall in Hall. specialize (Hall v Hv).
  apply andb_true_iff in Hall as [Ht Hd]. split; [exact Ht|].
  rewrite of_Z_one.
  destruct (JS.div v v) as [| | | [|] m e]; try discriminate.
  apply andb_true_iff in Hd as [Hm He].
  apply Pos.eqb_eq in Hm. apply Z.eqb_eq in He. subst. reflexivity.
Qed.

Section ChartEnds.

Variable Date_getFullYear : string -> option Z.
Variable Date_behindUTC : bool.

(** X10.  For a sale in a year from 2000 to 2024 and a region key that
    is not an inherited name, the series of the chart version starts at
    the sold year with the last sold price and ends at 2024 with the
    estimate. *)
Theorem chart_endpoints (p : Property) (k : string) (y : Z) :
  AppChart.soldYear Date_getFullYear Date_behindUTC p = Some y ->
  2000 <= y <= 2024 ->
  Obj.inherited k = false ->
  exists r first rest front final,
    AppChart.calculateValuation Date_getFullYear Date_behindUTC p k = JS.Normal r /\
    AppChart.chartData r = first :: rest /\
    AppChart.year first = y /\ AppChart.value first = price p /\
    AppChart.chartData r = front ++ [final] /\
    AppChart.year final = 2024 /\ AppChart.value final = AppChart.estimatedValue r.
Proof.
  intros Hy Hrange Hinh.
  destruct (AppChart_reads_table k Hinh) as (t & Hidx & Ht).
  assert (Hin : In (Obj.Table t) (Obj.objects AppChart.HPI_DATA)).
  { right. apply in_map, Ht. }
  pose proof (AppChart_table_years t Ht) as Hyears.
  assert (Hasc : StronglySorted Z.lt (map fst t)).
  { apply ascending_StronglySorted.
    apply (keys_ascending (Obj.Table t)). right. exact Hin. }
  assert (Hmem : In y (map fst t)).
  { rewrite Hyears. apply in_map_iff. exists (Z.to_nat y). split; [lia|].
    apply in_seq. lia. }
  destruct (filter_from_member y (map fst t) Hasc Hmem) as [tail Hhead].
  assert (Hlast : exists front,
             filter (fun year => y <=? year) (map fst t) = front ++ [2024]).
  { rewrite Hyears. change (seq 2000 25) with (seq 2000 24 ++ [2024%nat]).
    rewrite map_app. cbn [map]. change (Z.of_nat 2024) with 2024.
    eexists. apply filter_keeps_last. apply Z.leb_le. lia. }
  destruct Hlast as [front Hfront].
  set (old := AppChart.indexOld (Obj.Table t) (Some y)).
  set (cp := AppChart.chartPoint p (Obj.Table t) old).
  exists {| AppChart.estimatedValue :=
              JS.Math_round (JS.mul (price p) (JS.div (AppChart.indexNew (Obj.Table t)) old));
            AppChart.lowerBound :=
              JS.Math_round
                (JS.mul (JS.Math_round
                           (JS.mul (price p) (JS.div (AppChart.indexNew (Obj.Table t)) old)))
                        (JS.decimal 95 2));
            AppChart.upperBound :=
              JS.Math_round
                (JS.mul (JS.Math_round
                           (JS.mul (price p) (JS.div (AppChart.indexNew (Obj.Table t)) old)))
                        (JS.decimal 105 2));
            AppChart.growthFactor := JS.div (AppChart.indexNew (Obj.Table t)) old;
            AppChart.chartData :=
              map cp (filter (fun year => AppChart.year_ge year (Some y)) (map fst t));
            AppChart.regionKey := k |}.
  exists (cp y), (map cp tail), (map cp front), (cp 2024).
  cbn [AppChart.chartData AppChart.estimatedValue AppChart.year_ge].
  split; [unfold AppChart.calculateValuation; rewrite Hidx, Hy; reflexivity|].
  split; [rewrite Hhead; reflexivity|].
  split; [reflexivity|].
  destruct (keys_get_year (Obj.Table t) y Hmem) as (v & Hv & Hvin).
  destruct (AppChart_index_self _ v Hin Hvin) as [Htruthy Hself].
  assert (Hold : old = v).
  { unfold old, AppChart.indexOld. rewrite Hv. cbn [JS.or_default]. rewrite Htruthy.
    reflexivity. }
  split.
  - unfold cp, AppChart.chartPoint. cbn [AppChart.value]. rewrite Hv. cbn [JS.to_number].
    rewrite Hold, Hself. apply estimate_at_factor_one.
  - split; [rewrite Hfront, map_app; reflexivity|]. split; [reflexivity|].
    assert (Hmem24 : In 2024 (map fst t)).
    { rewrite Hyears. apply in_map_iff. exists 2024%nat. split; [reflexivity|].
      apply in_seq. lia. }
    destruct (keys_get_year (Obj.Table t) 2024 Hmem24) as (w & Hw & Hwin).
    destruct (AppChart_index_self _ w Hin Hwin) as [Hwt _].
    unfold cp, AppChart.chartPoint. cbn [AppChart.value]. rewrite Hw. cbn [JS.to_number].
    unfold AppChart.indexNew. change (Some AppChart.currentYear) with (Some 2024).
    rewrite Hw. cbn [JS.or_default]. rewrite Hwt. reflexivity.
Qed.

End ChartEnds.

(** X10 at 10 Downing Street: the series runs from 2005 with 4,500,000
    to 2024. *)
Lemma chart_endpoints_witness :
  AppChart.soldYear isoYear false downing10 = Some 2005 /\
  2000 <= 2005 <= 2024 /\
  Obj.inherited "London" = false /\
  exists r first rest front final,
    AppChart.calculateValuation isoYear false downing10 "London" = JS.Normal r /\
    AppChart.chartData r = first :: rest /\
    AppChart.year first = 2005 /\ AppChart.value first = JS.of_Z 4500000 /\
    AppChart.chartData r = front ++ [final] /\
    AppChart.year final = 2024 /\ AppChart.value final = AppChart.estimatedValue r.
Proof.
  assert (Hy : AppChart.soldYear isoYear false downing10 = Some 2005) by reflexivity.
  assert (Hr : 2000 <= 2005 <= 2024) by lia.
  assert (Hi : Obj.inherited "London" = false) by reflexivity.
  split; [exact Hy|]. split; [exact Hr|]. split; [exact Hi|].
  exact (chart_endpoints isoYear false downing10 "London" 2005 Hy Hr Hi).
Defined.

(** ** The page *)

Lemma view_search (st : Page.State) :
  Page.is_search (Page.renderContent st) = true ->
  Page.page st = Page.Home /\ Page.step st = 1.
Proof.
  unfold Page.renderContent. destruct (Page.page st); try discriminate.
  destruct (Z.eqb_spec (Page.step st) 1); [auto|].
  destruct (Z.eqb_spec (Page.step st) 2); [discriminate|].
  destruct (Z.eqb_spec (Page.step st) 3); [| discriminate].
  destruct (Page.selectedProp st); discriminate.
Qed.

Lemma view_list (st : Page.State) :
  Page.is_list (Page.renderContent st) = true ->
  Page.page st = Page.Home /\ Page.step st = 2.
Proof.
  unfold Page.renderContent. destruct (Page.page st); try discriminate.
  destruct (Z.eqb_spec (Page.step st) 1); [discriminate|].
  destruct (Z.eqb_spec (Page.step st) 2); [auto|].
  destruct (Z.eqb_spec (Page.step st) 3); [| discriminate].
  destruct (Page.selectedProp st); discriminate.
Qed.

Lemma view_result (st : Page.State) (a : Property) :
  Page.renderContent st = Page.ResultView a ->
  Page.page st = Page.Home /\ Page.step st = 3 /\ Page.selectedProp st = Some a.
Proof.
  unfold Page.renderContent. destruct (Page.page st); try discriminate.
  destruct (Z.eqb_spec (Page.step st) 1); [discriminate|].
  destruct (Z.eqb_spec (Page.step st) 2); [discriminate|].
  destruct (Z.eqb_spec (Page.step st) 3); [| discriminate].
  destruct (Page.selectedProp st); [| discriminate].
  intros [= ->]. auto.
Qed.

Lemma view_is_result (st : Page.State) :
  Page.is_result (Page.renderContent st) = true ->
  exists a, Page.renderContent st = Page.ResultView a.
Proof. destruct (Page.renderContent st); try discriminate. eexists. reflexivity. Qed.

(** No answer is awaited once the step is 2 or 3. *)
Lemma invariant_idle (st : Page.State) :
  Page.invariant st -> Page.step st <> 1 -> Page.pending st = Page.Idle.
Proof.
  intros (_ & _ & _ & _ & Hpend) Hs.
  destruct (Page.pending st) as [| input | fmt]; [reflexivity | |];
    exfalso; apply Hs, Hpend; discriminate.
Qed.

(** Every event keeps the invariant of the page. *)
Lemma handle_keeps_invariant (st st' : Page.State) (ev : Page.Event) :
  Page.invariant st -> Page.handle st ev = Some st' -> Page.invariant st'.
Proof.
  intros Hinv Hev. pose proof Hinv as (Hreg & Hstep & Hsel & Hload & Hpend).
  destruct ev as [pg | s | | res | res | | row |]; cbn [Page.handle] in Hev.
  - (* SetPage *)
    injection Hev as <-. exact Hinv.
  - (* ChangePostcode *)
    destruct (Page.is_search (Page.renderContent st)); [| discriminate].
    injection Hev as <-. exact Hinv.
  - (* Submit *)
    destruct (Page.is_search (Page.renderContent st)) eqn:Hv; [| discriminate].
    destruct (Page.loading st) eqn:Hl; [discriminate|]. cbn [negb andb] in Hev.
    injection Hev as <-. apply view_search in Hv as [_ Hs1].
    unfold Page.invariant.
    cbn [Page.region Page.step Page.selectedProp Page.properties Page.loading Page.pending].
    split; [exact Hreg|]. split; [exact Hstep|]. split; [exact Hsel|].
    split; [split; [discriminate | reflexivity] | intros _; exact Hs1].
  - (* PostcodeAnswered *)
    destruct (Page.pending st) as [| input | fmt] eqn:Hp; try discriminate.
    injection Hev as <-. unfold Page.invariant.
    cbn [Page.region Page.step Page.selectedProp Page.properties Page.loading Page.pending].
    split.
    { destruct res as [| region ad f]; cbn [App.getPostcodeDetails App.regionKey].
      - cbn. auto.
      - apply App_classify_key. }
    split; [exact Hstep|]. split; [exact Hsel|].
    split.
    + split; [discriminate | intros _; apply Hload; discriminate].
    + intros _. apply Hpend. discriminate.
  - (* PropertiesAnswered *)
    destruct (Page.pending st) as [| input | fmt] eqn:Hp; try discriminate.
    injection Hev as <-. unfold Page.invariant.
    cbn [Page.region Page.step Page.selectedProp Page.properties Page.loading Page.pending].
    split; [exact Hreg|]. split; [auto|]. split; [intros H; discriminate|].
    split; [split; [discriminate | intros H; contradiction] | intros H; contradiction].
  - (* SetStep1 *)
    destruct (Page.is_list (Page.renderContent st) || Page.is_result (Page.renderContent st));
      [| discriminate].
    injection Hev as <-. unfold Page.invariant.
    cbn [Page.region Page.step Page.selectedProp Page.properties Page.loading Page.pending].
    split; [exact Hreg|]. split; [auto|]. split; [intros H; discriminate|].
    split; [exact Hload | reflexivity].
  - (* SelectAddress *)
    destruct (nth_error (Page.properties st) row) as [addr |] eqn:Hrow; [| discriminate].
    destruct (Page.is_list (Page.renderContent st)) eqn:Hv; [| discriminate].
    injection Hev as <-. apply view_list in Hv as [_ Hs2].
    assert (Hidle : Page.pending st = Page.Idle) by (apply invariant_idle; [exact Hinv | lia]).
    unfold Page.invariant.
    cbn [Page.region Page.step Page.selectedProp Page.properties Page.loading Page.pending].
    split; [exact Hreg|]. split; [auto|].
    split; [intros _; exists addr; split; [reflexivity | eapply nth_error_In, Hrow]|].
    split; [exact Hload | intros H; contradiction].
  - (* BackToList *)
    destruct (Page.is_result (Page.renderContent st)) eqn:Hv; [| discriminate].
    injection Hev as <-. apply view_is_result in Hv as [a Hv].
    apply view_result in Hv as (_ & Hs3 & _).
    assert (Hidle : Page.pending st = Page.Idle) by (apply invariant_idle; [exact Hinv | lia]).
    unfold Page.invariant.
    cbn [Page.region Page.step Page.selectedProp Page.properties Page.loading Page.pending].
    split; [exact Hreg|]. split; [auto|]. split; [intros H; discriminate|].
    split; [exact Hload | intros H; contradiction].
Qed.

Lemma reachable_invariant (st : Page.State) : Page.reachable st -> Page.invariant st.
Proof.
  induction 1 as [| st ev st' _ IH Hev].
  - unfold Page.invariant, Page.initial.
    cbn [Page.region Page.step Page.selectedProp Page.properties Page.loading Page.pending].
    split; [cbn; auto|]. split; [auto|]. split; [intros H; discriminate|].
    split; [split; [discriminate | intros H; contradiction] | intros H; contradiction].
  - eapply handle_keeps_invariant; eassumption.
Qed.

(** X11.  In every state the page can reach: the region is a key of
    [HPI_DATA]; the step is 1, 2 or 3; at step 3 a property is selected
    and it is a row of the list held; the page is loading exactly while
    [handleSearch] awaits an answer, and then the step is 1.  So
    [renderContent] always returns a view. *)
Theorem page_invariant (st : Page.State) :
  Page.reachable st ->
  Page.invariant st /\ Page.renderContent st <> Page.Blank.
Proof.
  intros Hreach. pose proof (reachable_invariant st Hreach) as Hinv.
  split; [exact Hinv|].
  destruct Hinv as (_ & Hstep & Hsel & _).
  unfold Page.renderContent. destruct (Page.page st); try discriminate.
  destruct Hstep as [-> | [-> | H3]]; try discriminate.
  destruct (Hsel H3) as (a & -> & _). rewrite H3. discriminate.
Qed.

(** X12.  Whenever the page shows a result, the property shown is a row
    of the current list and its valuation reads the table written for
    the current region and returns. *)
Theorem result_view_valuation (getFullYear : string -> option Z)
    (st : Page.State) (a : Property) :
  Page.reachable st ->
  Page.renderContent st = Page.ResultView a ->
  In a (Page.properties st) /\
  exists t r,
    Obj.own App.HPI_DATA (Page.region st) = Some t /\
    App.indexData (Page.region st) = Some (Obj.Table t) /\
    App.calculateValuation getFullYear a (Page.region st) = JS.Normal r.
Proof.
  intros Hreach Hview.
  destruct (reachable_invariant st Hreach) as (Hreg & _ & Hsel & _).
  apply view_result in Hview as (_ & H3 & Ha).
  destruct (Hsel H3) as (a' & Ha' & Hin). rewrite Ha in Ha'. injection Ha' as <-.
  split; [exact Hin|].
  destruct (App_key_reads_own_table _ Hreg) as (t & Hown & _ & Hidx).
  exists t. eexists. split; [exact Hown|]. split; [exact Hidx|].
  unfold App.calculateValuation. rewrite Hidx. reflexivity.
Qed.

Lemma run_reachable (evs : list Page.Event) (st st' : Page.State) :
  Page.reachable st -> Page.run st evs = Some st' -> Page.reachable st'.
Proof.
  revert st. induction evs as [| ev rest IH]; intros st Hreach; cbn [Page.run].
  - intros [= <-]. exact Hreach.
  - destruct (Page.handle st ev) as [st1 |] eqn:Hev; [| discriminate].
    apply IH. eapply Page.reachable_handle; eassumption.
Qed.

Lemma search_view_inv (st : Page.State) :
  Page.renderContent st = Page.SearchView ->
  Page.page st = Page.Home /\ Page.step st = 1.
Proof. intros H. apply view_search. rewrite H. reflexivity. Qed.

(** X13.  One round of [handleSearch] from the search form: a second
    submit is impossible while the first is loading; what is typed
    meanwhile does not change the postcode the backend is asked for,
    yet it is the postcode the list page names; the round ends on the
    list page with the region of the lookup and the list of
    [fetchProperties]. *)
Theorem search_round (st : Page.State) (typed : string)
    (r1 : PostcodeResponse) (r2 : Page.BackendResponse) :
  Page.renderContent st = Page.SearchView ->
  Page.loading st = false ->
  exists s1 s2 s3 s4,
    Page.handle st Page.Submit = Some s1 /\
    Page.handle s1 Page.Submit = None /\
    Page.handle s1 (Page.ChangePostcode typed) = Some s2 /\
    Page.handle s2 (Page.PostcodeAnswered r1) = Some s3 /\
    Page.pending s3 =
      Page.AwaitingProperties
        (App.formattedPostcode (App.getPostcodeDetails (Page.postcode st) r1)) /\
    Page.handle s3 (Page.PropertiesAnswered r2) = Some s4 /\
    Page.renderContent s4 = Page.ListView /\
    Page.region s4 = App.regionKey (App.getPostcodeDetails (Page.postcode st) r1) /\
    Page.properties s4 = Page.fetchProperties r2 /\
    Page.postcode s4 = typed /\
    Page.loading s4 = false.
Proof.
  intros Hview Hload. destruct (search_view_inv st Hview) as [Hpage Hstep].
  do 4 eexists.
  split.
  { cbn [Page.handle]. rewrite Hview, Hload. reflexivity. }
  split.
  { cbn [Page.handle Page.loading]. rewrite andb_false_r. reflexivity. }
  split.
  { cbn [Page.handle]. unfold Page.renderContent. cbn [Page.page Page.step].
    rewrite Hpage, Hstep. reflexivity. }
  split; [reflexivity|]. split; [reflexivity|]. split; [reflexivity|].
  repeat split.
Qed.

(** X14.  With postcodes.io and the backend both failing, a search for
    any postcode lists the mock record, 10 Downing Street; selecting it
    shows a valuation with the region "UK Average", 6,444,000 when the
    date reads as 2005. *)
Theorem offline_search (getFullYear : string -> option Z) (typed : string) :
  getFullYear "2005-06-15"%string = Some 2005 ->
  exists st r,
    Page.run Page.initial
      [ Page.ChangePostcode typed; Page.Submit; Page.PostcodeAnswered Unreachable;
        Page.PropertiesAnswered Page.BackendFailed; Page.SelectAddress 0 ] = Some st /\
    Page.properties st = App.MOCK_PROPERTIES /\
    Page.region st = "UK Average"%string /\
    Page.renderContent st = Page.ResultView downing10 /\
    App.calculateValuation getFullYear downing10 (Page.region st) = JS.Normal r /\
    App.estimatedValue r = JS.of_Z 6444000.
Proof.
  intros Hdate. eexists. eexists.
  split; [reflexivity|]. split; [reflexivity|]. split; [reflexivity|].
  split; [reflexivity|].
  cbn [Page.region]. unfold App.calculateValuation, App.soldYear.
  change (lastSoldDate downing10) with (DateString "2005-06-15"%string).
  cbn [JS.truthy_string]. rewrite Hdate.
  split; [vm_compute; reflexivity | reflexivity].
Qed.

Lemma offline_search_witness :
  isoYear "2005-06-15"%string = Some 2005 /\
  exists st r,
    Page.run Page.initial
      [ Page.ChangePostcode "RG1 2AB"; Page.Submit; Page.PostcodeAnswered Unreachable;
        Page.PropertiesAnswered Page.BackendFailed; Page.SelectAddress 0 ] = Some st /\
    Page.renderContent st = Page.ResultView downing10 /\
    App.calculateValuation isoYear downing10 (Page.region st) = JS.Normal r /\
    App.estimatedValue r = JS.of_Z 6444000.
Proof.
  assert (Hd : isoYear "2005-06-15"%string = Some 2005) by reflexivity.
  split; [exact Hd|].
  destruct (offline_search isoYear "RG1 2AB" Hd) as (st & r & Hrun & _ & _ & Hv & Hr & He).
  exists st, r. repeat split; assumption.
Defined.

Lemma afterSelection_reachable : Page.reachable afterSelection.
Proof.
  apply (run_reachable
           [ Page.ChangePostcode "RG1 2AB"; Page.Submit;
             Page.PostcodeAnswered (Status200 (Some "South East"%string) None "RG1 2AB");
             Page.PropertiesAnswered (Page.BackendOk [sold2010; undated]);
             Page.SelectAddress 1 ] Page.initial).
  - apply Page.reachable_initial.
  - reflexivity.
Defined.

Lemma page_invariant_witness :
  Page.reachable afterSelection /\
  Page.invariant afterSelection /\ Page.renderContent afterSelection <> Page.Blank.
Proof.
  split; [exact afterSelection_reachable|].
  exact (page_invariant afterSelection afterSelection_reachable).
Defined.

Lemma result_view_valuation_witness :
  Page.reachable afterSelection /\
  Page.renderContent afterSelection = Page.ResultView undated /\
  In undated (Page.properties afterSelection) /\
  exists t r,
    Obj.own App.HPI_DATA "South East" = Some t /\
    App.indexData "South East" = Some (Obj.Table t) /\
    App.calculateValuation isoYear undated "South East" = JS.Normal r.
Proof.
  assert (Hv : Page.renderContent afterSelection = Page.ResultView undated) by reflexivity.
  split; [exact afterSelection_reachable|]. split; [exact Hv|].
  exact (result_view_valuation isoYear afterSelection undated afterSelection_reachable Hv).
Defined.

Lemma search_round_witness :
  Page.renderContent Page.initial = Page.SearchView /\
  Page.loading Page.initial = false /\
  exists s4,
    Page.run Page.initial
      [ Page.Submit; Page.ChangePostcode "SW1A 1AA";
        Page.PostcodeAnswered (Status200 (Some "London"%string) None "SW1A 1AA");
        Page.PropertiesAnswered (Page.BackendOk [sold2010]) ] = Some s4 /\
    Page.renderContent s4 = Page.ListView /\ Page.region s4 = "London"%string /\
    Page.properties s4 = [sold2010] /\ Page.postcode s4 = "SW1A 1AA"%string.
Proof.
  assert (Hv : Page.renderContent Page.initial = Page.SearchView) by reflexivity.
  assert (Hl : Page.loading Page.initial = false) by reflexivity.
  split; [exact Hv|]. split; [exact Hl|].
  destruct (search_round Page.initial "SW1A 1AA"
              (Status200 (Some "London"%string) None "SW1A 1AA")
              (Page.BackendOk [sold2010]) Hv Hl)
    as (s1 & s2 & s3 & s4 & H1 & _ & H2 & H3 & _ & H4 & Hview & Hreg & Hprops & Hpc & _).
  exists s4. cbn [Page.run]. rewrite H1, H2, H3, H4.
  repeat split; assumption.
Defined.
